(** * OdometerReader: the reading ingestion-and-normalization pipeline

    A shallow embedding of [src/index.tsx] (the [App] component): the
    response validation of [handleFileUpload], the React state and its
    update queue, the two [useEffect]s that load and save the readings in
    [localStorage], [clearAllReadings], and the derived values
    [sortedReadings], [initialReading] and [displayReadings].

    Modelling conventions.
    - A JavaScript string is the list of its UTF-16 code units.
    - A JavaScript number that the code obtains from [parseInt] or from
      subtracting two such numbers is the mathematical integer it denotes,
      or NaN; it is modelled as [option Z] with [None] for NaN.  The
      engine rounds to a double, which is exact up to 2^53 in magnitude
      (and gives Infinity for digit strings beyond the range of a double):
      [JsNumber], [to_double], [js_parseInt] and [js_displayReadings] give
      the numbers as the engine holds them, and the statements that depend
      on the magnitude of a number are made over these.
    - React state updates are queued by the handlers and applied by the
      next render, after which the effects whose dependencies changed run.
    - Values the host supplies ([process.env.API_KEY], [JSON.parse],
      [JSON.stringify], [Date] parsing, [Math.random], the clock, the file
      picker, [FileReader] and the recognition service) are parameters or
      labels of the transition system. *)

From Stdlib Require Import List Bool ZArith NArith Lia String Ascii.
From Stdlib Require Import Permutation Sorted DecimalString.
Import ListNotations.

Local Open Scope Z_scope.

(** ** JavaScript strings *)

Definition jsstring := list N.

(** A string literal of the source, as code units. *)
Definition str (s : string) : jsstring :=
  map N_of_ascii (list_ascii_of_string s).

(** Truthiness of a possibly [undefined] string: [undefined] and the empty
    string are falsy. *)
Definition truthy (s : option jsstring) : bool :=
  match s with
  | None => false
  | Some [] => false
  | Some (_ :: _) => true
  end.

(** [WhiteSpace] and [LineTerminator] code points of ECMAScript, the ones
    [String.prototype.trim] and [parseInt] strip. *)
Definition is_white_space (c : N) : bool :=
  ((9 <=? c) && (c <=? 13) || (c =? 32) || (c =? 160) || (c =? 5760)
   || (8192 <=? c) && (c <=? 8202) || (c =? 8232) || (c =? 8233)
   || (c =? 8239) || (c =? 8287) || (c =? 12288) || (c =? 65279))%N.

Fixpoint trimStart (s : jsstring) : jsstring :=
  match s with
  | [] => []
  | c :: s' => if is_white_space c then trimStart s' else s
  end.

Definition trimEnd (s : jsstring) : jsstring := rev (trimStart (rev s)).

(** [String.prototype.trim] *)
Definition trim (s : jsstring) : jsstring := trimEnd (trimStart s).

(** ** [parseInt(string, 10)] *)

Definition is_digit (c : N) : bool := ((48 <=? c) && (c <=? 57))%N.

Definition digit_value (c : N) : Z := Z.of_N c - 48.

(** The longest prefix of decimal digits. *)
Fixpoint digit_prefix (s : jsstring) : jsstring :=
  match s with
  | [] => []
  | c :: s' => if is_digit c then c :: digit_prefix s' else []
  end.

(** The mathematical value of a string of decimal digits. *)
Definition digits_value (ds : jsstring) : Z :=
  fold_left (fun acc c => 10 * acc + digit_value c) ds 0.

Definition minus_sign : N := 45.
Definition plus_sign : N := 43.

(** [parseInt(s, 10)]: strip leading white space, read an optional sign,
    then the longest run of digits; NaN when that run is empty.  With radix
    10 no [0x] prefix is recognised. *)
Definition parseInt (s : jsstring) : option Z :=
  let S := trimStart s in
  let sign := match S with
              | c :: _ => if (c =? minus_sign)%N then -1 else 1
              | [] => 1
              end in
  let S' := match S with
            | c :: rest =>
                if ((c =? minus_sign) || (c =? plus_sign))%N then rest else S
            | [] => S
            end in
  match digit_prefix S' with
  | [] => None
  | ds => Some (sign * digits_value ds)
  end.

Definition isNaN (n : option Z) : bool :=
  match n with None => true | Some _ => false end.

(** [n === -1] *)
Definition is_sentinel (n : option Z) : bool :=
  match n with Some v => v =? -1 | None => false end.

(** ** Response validation (lines 113-125 of [handleFileUpload]) *)

(** [response.text?.trim()] *)
Definition response_text (response : option jsstring) : option jsstring :=
  option_map trim response.

(** [parseInt(text || "-1", 10)] *)
Definition numberValue (text : option jsstring) : option Z :=
  parseInt (if truthy text then match text with Some t => t | None => [] end
            else str "-1").

(** [!text || numberValue === -1 || isNaN(numberValue)] *)
Definition unreadable (text : option jsstring) : bool :=
  negb (truthy text) || is_sentinel (numberValue text)
  || isNaN (numberValue text).

(** The two branches of the validation: the error message of the first,
    the value of the new reading of the second. *)
Inductive Recognition : Type :=
| RecognitionFailure
| RecognitionSuccess (value : Z).

Definition recognize (response : option jsstring) : Recognition :=
  let text := response_text response in
  if unreadable text then RecognitionFailure
  else match numberValue text with
       | Some v => RecognitionSuccess v
       | None => RecognitionFailure
       end.

(** ** Data model *)

Record Reading : Type := mkReading {
  id : jsstring;
  value : Z;
  date : jsstring
}.

Inductive View : Type := table | chart.

(** The six [useState] cells of [App]. *)
Record State : Type := mkState {
  readings : list Reading;
  loading : bool;
  view : View;
  zeroReadings : bool;
  showClearConfirm : bool;
  errorMsg : option jsstring
}.

Definition initial_state : State :=
  {| readings := []; loading := false; view := table;
     zeroReadings := false; showClearConfirm := false; errorMsg := None |}.

(** A call of a state setter, queued until the next render.  [setReadings]
    takes the updater function; a call with a plain value is the constant
    updater. *)
Inductive Update : Type :=
| setReadings (f : list Reading -> list Reading)
| setLoading (b : bool)
| setView (v : View)
| setZeroReadings (b : bool)
| setShowClearConfirm (b : bool)
| setErrorMsg (m : option jsstring).

Definition apply_update (s : State) (u : Update) : State :=
  match u with
  | setReadings f =>
      mkState (f (readings s)) (loading s) (view s) (zeroReadings s)
              (showClearConfirm s) (errorMsg s)
  | setLoading b =>
      mkState (readings s) b (view s) (zeroReadings s)
              (showClearConfirm s) (errorMsg s)
  | setView v =>
      mkState (readings s) (loading s) v (zeroReadings s)
              (showClearConfirm s) (errorMsg s)
  | setZeroReadings b =>
      mkState (readings s) (loading s) (view s) b
              (showClearConfirm s) (errorMsg s)
  | setShowClearConfirm b =>
      mkState (readings s) (loading s) (view s) (zeroReadings s)
              b (errorMsg s)
  | setErrorMsg m =>
      mkState (readings s) (loading s) (view s) (zeroReadings s)
              (showClearConfirm s) m
  end.

(** Every [setReadings] call of the source passes a freshly built array, so
    the [readings] dependency of the save effect changes exactly when the
    queue holds such a call. *)
Definition touches_readings (u : Update) : bool :=
  match u with setReadings _ => true | _ => false end.

(** ** The host: storage, the file input, pending asynchronous work *)

Record File : Type := mkFile {
  file_name : jsstring;
  file_type : jsstring
}.

Definition jsstring_eqb (a b : jsstring) : bool :=
  if list_eq_dec N.eq_dec a b then true else false.

Definition File_eqb (f g : File) : bool :=
  jsstring_eqb (file_name f) (file_name g)
  && jsstring_eqb (file_type f) (file_type g).

(** The varying part of a [generateContent] request; the model name and
    the instruction text are constants of the source. *)
Record Request : Type := mkRequest {
  req_apiKey : jsstring;
  req_mimeType : jsstring;
  req_data : option jsstring
}.

(** One run of [handleFileUpload] that has not finished: either its
    [FileReader] has not fired [onload] yet, or its [generateContent] call
    is awaited. *)
Inductive Task : Type :=
| ReadingFile (file : File) (apiKey : jsstring)
| Recognizing (req : Request).

Inductive LogEntry : Type :=
| FailedToParseReadings
| ErrorLogged.

Record Host : Type := mkHost {
  storage : option jsstring;   (* localStorage slot "odometer_readings" *)
  fileInput : option File;     (* selection of the hidden input; None is "" *)
  picker : bool;               (* the input's file chooser is open *)
  tasks : list Task;
  requests : list Request;     (* generateContent calls issued so far *)
  console : list LogEntry      (* console.error *)
}.

Definition initial_host (stored : option jsstring) : Host :=
  {| storage := stored; fileInput := None; picker := false;
     tasks := []; requests := []; console := [] |}.

Definition set_storage (h : Host) (v : option jsstring) : Host :=
  mkHost v (fileInput h) (picker h) (tasks h) (requests h) (console h).

Definition set_fileInput (h : Host) (v : option File) : Host :=
  mkHost (storage h) v (picker h) (tasks h) (requests h) (console h).

Definition set_picker (h : Host) (v : bool) : Host :=
  mkHost (storage h) (fileInput h) v (tasks h) (requests h) (console h).

Definition set_tasks (h : Host) (v : list Task) : Host :=
  mkHost (storage h) (fileInput h) (picker h) v (requests h) (console h).

Definition issue_request (h : Host) (r : Request) : Host :=
  mkHost (storage h) (fileInput h) (picker h) (tasks h)
         (requests h ++ [r]) (console h).

Definition console_error (h : Host) (e : LogEntry) : Host :=
  mkHost (storage h) (fileInput h) (picker h) (tasks h) (requests h)
         (console h ++ [e]).

(** [localStorage.removeItem("odometer_readings")] *)
Definition localStorage_removeItem (h : Host) : Host := set_storage h None.

(** [if (fileInputRef.current) fileInputRef.current.value = ""]; the input
    is rendered unconditionally, so the ref is set. *)
Definition clear_fileInput (h : Host) : Host := set_fileInput h None.

Fixpoint remove_nth {A : Type} (i : nat) (l : list A) : list A :=
  match i, l with
  | _, [] => []
  | O, _ :: l' => l'
  | S i', x :: l' => x :: remove_nth i' l'
  end.

Fixpoint replace_nth {A : Type} (i : nat) (y : A) (l : list A) : list A :=
  match i, l with
  | _, [] => []
  | O, _ :: l' => y :: l'
  | S i', x :: l' => x :: replace_nth i' y l'
  end.

(** [s.split(",")] *)
Fixpoint split_on (sep : N) (s : jsstring) : list jsstring :=
  match s with
  | [] => [[]]
  | c :: s' =>
      if (c =? sep)%N then [] :: split_on sep s'
      else match split_on sep s' with
           | piece :: rest => (c :: piece) :: rest
           | [] => [[c]]
           end
  end.

Definition comma : N := 44.

Record World : Type := mkWorld {
  state : State;
  host : Host
}.

Definition set_host (w : World) (h : Host) : World := mkWorld (state w) h.

(** The user-facing messages of the source. *)
Definition configuration_error : jsstring :=
  str "Configuration Error: API_KEY is missing. Please check your environment variables.".
Definition could_not_read : jsstring :=
  str "Could not read odometer. Please try a clearer photo.".
Definition error_processing : jsstring :=
  str "Error processing image with AI.".
Definition error_reading_file : jsstring :=
  str "Error reading file.".

(** How an awaited [generateContent] call ends: with a response, whose
    [text] may be undefined, or with an exception. *)
Inductive Settlement : Type :=
| Fulfilled (text : option jsstring)
| Rejected.

(** Labels of the transition system: what the user, the browser and the
    recognition service can do to the mounted component. *)
Inductive Event : Type :=
| ClickAddReading                       (* the "Add a Reading" button *)
| PickerCancel                          (* chooser closed without a file *)
| PickerChoose (f : File) (reader_throws : bool)
                                        (* a file chosen: the input's onChange;
                                           whether starting the FileReader throws *)
| ReaderLoad (i : nat) (result : jsstring)      (* reader.onload of task i *)
| ReaderError (i : nat)                 (* error event of the reader of task i *)
| Settle (i : nat) (res : Settlement) (newId now : jsstring)
                                        (* generateContent of task i settles;
                                           generateId() and the clock *)
| ClickTable
| ClickChart
| ToggleZeroReadings
| ClickClearAll                         (* footer button *)
| ClickCancel                           (* dialog: Cancel *)
| ClickYesClear.                        (* dialog: Yes, Clear *)

(** ** The component *)

Section App.

(** [process.env.API_KEY], fixed at build time ([vite.config.ts]). *)
Variable API_KEY : option jsstring.

(** [JSON.parse] on the stored text, [None] when it throws.  The result is
    taken at the type the source gives it: it is stored unchecked in a
    state cell declared [Reading[]].  What happens when the text parses
    to a value that is no collection is the matter of [startup]. *)
Variable JSON_parse : jsstring -> option (list Reading).

Variable JSON_stringify : list Reading -> jsstring.

(** *** Effects *)

(** The save effect: [localStorage.setItem("odometer_readings",
    JSON.stringify(readings))], dependencies [[readings]]. *)
Definition save_effect (s : State) (h : Host) : Host :=
  set_storage h (Some (JSON_stringify (readings s))).

(** The load effect, dependencies [[]]: it runs once, after the first
    render. *)
Definition load_effect (h : Host) : list Update * Host :=
  if truthy (storage h) then
    match storage h with
    | Some stored =>
        match JSON_parse stored with
        | Some parsed => ([setReadings (fun _ => parsed)], h)
        | None => ([], console_error h FailedToParseReadings)
        end
    | None => ([], h)
    end
  else ([], h).

(** A render: the queued updates are applied in order; then the save
    effect runs if its dependency changed. *)
Definition render (w : World) (queue : list Update) : World :=
  let s' := fold_left apply_update queue (state w) in
  mkWorld s' (if existsb touches_readings queue
              then save_effect s' (host w) else host w).

(** A handler has run: its host effects are done, its updates rendered. *)
Definition dispatch (w : World) (r : list Update * Host) : World :=
  render (set_host w (snd r)) (fst r).

(** Mounting [App]: the first render shows [initial_state]; then both
    effects run in source order, the save effect with the [readings] of
    that first render; then the update queued by the load effect, if any,
    is rendered. *)
Definition mount (stored : option jsstring) : World :=
  let '(queue, h1) := load_effect (initial_host stored) in
  let h2 := save_effect initial_state h1 in
  render (mkWorld initial_state h2) queue.

(** *** Handlers *)

(** [handleFileUpload] up to the point where it returns: the file is the
    first one of the input's selection; [!apiKey] holds for an undefined
    and for an empty key. *)
Definition handleFileUpload (reader_throws : bool) (h : Host)
  : list Update * Host :=
  match fileInput h with
  | None => ([], h)
  | Some file =>
      match API_KEY with
      | Some (c :: k) =>
          if reader_throws then
            ([setLoading true; setErrorMsg None;
              setErrorMsg (Some error_reading_file); setLoading false],
             console_error h ErrorLogged)
          else
            ([setLoading true; setErrorMsg None],
             set_tasks h (tasks h ++ [ReadingFile file (c :: k)]))
      | _ =>
          ([setLoading true; setErrorMsg None;
            setErrorMsg (Some configuration_error); setLoading false],
           clear_fileInput h)
      end
  end.

(** [reader.onload], up to the [await]: the request is built and sent. *)
Definition reader_onload (i : nat) (file : File) (apiKey : jsstring)
    (result : jsstring) (h : Host) : Host :=
  let base64Data := nth_error (split_on comma result) 1 in
  let mimeType := file_type file in
  let req := mkRequest apiKey mimeType base64Data in
  issue_request (set_tasks h (replace_nth i (Recognizing req) (tasks h))) req.

(** The rest of [reader.onload], after the [await]: the [try] body, the
    [catch] and the [finally]. *)
Definition generateContent_settled (res : Settlement) (newId now : jsstring)
    (h : Host) : list Update * Host :=
  match res with
  | Fulfilled response =>
      (match recognize response with
       | RecognitionFailure => [setErrorMsg (Some could_not_read)]
       | RecognitionSuccess numberValue =>
           [setReadings (fun prev => prev ++ [mkReading newId numberValue now])]
       end ++ [setLoading false],
       clear_fileInput h)
  | Rejected =>
      ([setErrorMsg (Some error_processing); setLoading false],
       clear_fileInput (console_error h ErrorLogged))
  end.

Definition clearAllReadings (h : Host) : list Update * Host :=
  ([setReadings (fun _ => []); setShowClearConfirm false],
   localStorage_removeItem h).

(** *** Transitions *)

(** [step w e] is the world after event [e], or [None] when [e] cannot
    happen in [w].  What the source fixes: the button is rendered with
    [disabled={loading}], so a click on it while loading does nothing, and
    otherwise calls [click()] on the hidden input; [handleFileUpload] is
    that input's [onChange] and checks nothing itself; the dialog buttons
    exist only while [showClearConfirm] holds.  What is taken from the
    browser: the hidden input has one file chooser, open or not, reached
    only through the button; a click while it is open opens no second one;
    [onChange] fires when the chooser closes with a selection that differs
    from the input's current one. *)
Definition step (w : World) (e : Event) : option World :=
  let s := state w in
  let h := host w in
  match e with
  | ClickAddReading =>
      if loading s then Some w
      else Some (set_host w (set_picker h true))
  | PickerCancel =>
      if picker h then Some (set_host w (set_picker h false)) else None
  | PickerChoose f reader_throws =>
      if picker h then
        match fileInput h with
        | Some g =>
            if File_eqb f g then Some (set_host w (set_picker h false))
            else Some (dispatch w (handleFileUpload reader_throws
                         (set_fileInput (set_picker h false) (Some f))))
        | None =>
            Some (dispatch w (handleFileUpload reader_throws
                    (set_fileInput (set_picker h false) (Some f))))
        end
      else None
  | ReaderLoad i result =>
      match nth_error (tasks h) i with
      | Some (ReadingFile file apiKey) =>
          Some (set_host w (reader_onload i file apiKey result h))
      | _ => None
      end
  | ReaderError i =>
      match nth_error (tasks h) i with
      | Some (ReadingFile _ _) =>
          Some (set_host w (set_tasks h (remove_nth i (tasks h))))
      | _ => None
      end
  | Settle i res newId now =>
      match nth_error (tasks h) i with
      | Some (Recognizing _) =>
          Some (dispatch w (generateContent_settled res newId now
                              (set_tasks h (remove_nth i (tasks h)))))
      | _ => None
      end
  | ClickTable => Some (render w [setView table])
  | ClickChart => Some (render w [setView chart])
  | ToggleZeroReadings =>
      Some (render w [setZeroReadings (negb (zeroReadings s))])
  | ClickClearAll => Some (render w [setShowClearConfirm true])
  | ClickCancel =>
      if showClearConfirm s then Some (render w [setShowClearConfirm false])
      else None
  | ClickYesClear =>
      if showClearConfirm s then Some (dispatch w (clearAllReadings h))
      else None
  end.

Fixpoint run (w : World) (es : list Event) : option World :=
  match es with
  | [] => Some w
  | e :: es' =>
      match step w e with
      | Some w' => run w' es'
      | None => None
      end
  end.

(** The worlds the mounted component can be in. *)
Definition reachable (w : World) : Prop :=
  exists stored es, run (mount stored) es = Some w.

(** The events with which an ingestion attempt fails: the handler finds no
    credential or cannot start the reader, the reader reports an error,
    the recognition call throws, or its response is classified as
    unreadable. *)
Definition fails (e : Event) : Prop :=
  match e with
  | PickerChoose _ reader_throws =>
      truthy API_KEY = false \/ reader_throws = true
  | ReaderError _ => True
  | Settle _ Rejected _ _ => True
  | Settle _ (Fulfilled response) _ _ =>
      recognize response = RecognitionFailure
  | _ => False
  end.

End App.

(** ** The derived view *)

Record DisplayReading : Type := mkDisplayReading {
  d_id : jsstring;
  d_value : Z;
  d_date : jsstring;
  displayValue : Z
}.

Section Projection.

(** [new Date(s).getTime()], [None] for NaN (a string that is no date). *)
Variable Date_getTime : jsstring -> option Z.

(** The comparator of the source:
    [new Date(a.date).getTime() - new Date(b.date).getTime()]. *)
Definition compareFn (a b : Reading) : option Z :=
  match Date_getTime (date a), Date_getTime (date b) with
  | Some ta, Some tb => Some (ta - tb)
  | _, _ => None
  end.

(** [Array.prototype.sort] asks whether the comparator's result is
    positive; NaN counts as 0. *)
Definition sorts_after (a b : Reading) : bool :=
  match compareFn a b with
  | Some v => 0 <? v
  | None => false
  end.

(** [Array.prototype.sort] is a stable sort: an element moves behind the
    elements that followed it only as far as the comparator puts it
    strictly after them.  (With a date that does not parse the comparator
    is not consistent and the engine may order the array otherwise.) *)
Fixpoint sort_insert (x : Reading) (l : list Reading) : list Reading :=
  match l with
  | [] => [x]
  | y :: l' => if sorts_after x y then y :: sort_insert x l' else x :: l
  end.

Definition Array_sort (l : list Reading) : list Reading :=
  fold_right sort_insert [] l.

(** [[...readings].sort(...)] *)
Definition sortedReadings (rs : list Reading) : list Reading :=
  Array_sort rs.

Definition initialReading (rs : list Reading) : Z :=
  match sortedReadings rs with
  | r :: _ => value r
  | [] => 0
  end.

Definition displayReadings (rs : list Reading) (zero : bool)
  : list DisplayReading :=
  map (fun r =>
         mkDisplayReading (id r) (value r) (date r)
           (if zero then value r - initialReading rs else value r))
      (sortedReadings rs).

(** The reading a display row was made from. *)
Definition reading_of (d : DisplayReading) : Reading :=
  mkReading (d_id d) (d_value d) (d_date d).

(** What the table and the chart show in a world. *)
Definition shown (w : World) : list DisplayReading :=
  displayReadings (readings (state w)) (zeroReadings (state w)).

Definition valid_date (r : Reading) : Prop :=
  Date_getTime (date r) <> None.

(** The timestamp order on readings. *)
Definition date_le (a b : Reading) : Prop :=
  match Date_getTime (date a), Date_getTime (date b) with
  | Some ta, Some tb => ta <= tb
  | _, _ => False
  end.

Definition same_time (a b : Reading) : bool :=
  match Date_getTime (date a), Date_getTime (date b) with
  | Some ta, Some tb => ta =? tb
  | _, _ => false
  end.

End Projection.

(** ** Predicates of the statements *)

(** The range the data model gives a reading: up to six digits. *)
Definition in_odometer_range (v : Z) : Prop := 0 <= v <= 999999.

(** At most one ingestion is pending; while one is, the button is disabled;
    while the chooser is open, none is. *)
Definition single_flight (w : World) : Prop :=
  (List.length (tasks (host w)) <= 1)%nat
  /\ (tasks (host w) <> [] -> loading (state w) = true)
  /\ (picker (host w) = true -> loading (state w) = false).

(** The button is disabled and nothing is pending that would enable it. *)
Definition stuck (w : World) : Prop :=
  loading (state w) = true /\ tasks (host w) = [] /\ picker (host w) = false.

(** ** Sample values for the worked examples *)

Definition sample_key : option jsstring := Some (str "k").

Definition sample_file : File := mkFile (str "odo.jpg") (str "image/jpeg").

Definition sample_dataURL : jsstring := str "data:image/jpeg;base64,AAAA".

Definition day1 : jsstring := str "2024-01-01T00:00:00.000Z".
Definition day2 : jsstring := str "2024-01-02T00:00:00.000Z".

(** The timestamps of the two sample dates; every other string is taken to
    be no date. *)
Definition sample_getTime (s : jsstring) : option Z :=
  if jsstring_eqb s day1 then Some 1704067200000
  else if jsstring_eqb s day2 then Some 1704153600000
  else None.

(** A codec for the examples: it reads back the empty array only, and
    writes ids and dates verbatim between quotes. *)
Definition sample_parse (s : jsstring) : option (list Reading) :=
  if jsstring_eqb s (str "[]") then Some [] else None.

Definition quote : jsstring := [34%N].

Definition sample_number (z : Z) : jsstring :=
  str (DecimalString.NilZero.string_of_int (Z.to_int z)).

Definition sample_object (r : Reading) : jsstring :=
  str "{" ++ quote ++ str "id" ++ quote ++ str ":" ++ quote ++ id r ++ quote
  ++ str "," ++ quote ++ str "value" ++ quote ++ str ":" ++ sample_number (value r)
  ++ str "," ++ quote ++ str "date" ++ quote ++ str ":" ++ quote ++ date r ++ quote
  ++ str "}".

Fixpoint sample_join (l : list jsstring) : jsstring :=
  match l with
  | [] => []
  | [x] => x
  | x :: l' => x ++ str "," ++ sample_join l'
  end.

Definition sample_stringify (rs : list Reading) : jsstring :=
  str "[" ++ sample_join (map sample_object rs) ++ str "]".

(** The events of one ingestion that reaches the recognition service and
    gets [response] back. *)
Definition ingestion (response : jsstring) (newId now : jsstring) : list Event :=
  [ClickAddReading; PickerChoose sample_file false;
   ReaderLoad 0 sample_dataURL; Settle 0 (Fulfilled (Some response)) newId now].

Definition sample_run : World -> list Event -> option World :=
  run sample_key sample_stringify.

Definition sample_mount : option jsstring -> World :=
  mount sample_parse sample_stringify.

Definition sample_step : World -> Event -> option World :=
  step sample_key sample_stringify.

(** The world after the events [es], from a first start with no slot. *)
Definition world_after (es : list Event) : World :=
  match sample_run (sample_mount None) es with
  | Some w => w
  | None => sample_mount None
  end.

(** A recognition call is awaited. *)
Definition recognizing_world : World :=
  world_after [ClickAddReading; PickerChoose sample_file false;
               ReaderLoad 0 sample_dataURL].

(** The file has just been chosen; the handler has not run yet. *)
Definition file_chosen_world : World :=
  set_host (sample_mount None)
    (set_fileInput (host (sample_mount None)) (Some sample_file)).

(** Two readings, stored later one first. *)
Definition sample_readings : list Reading :=
  [mkReading (str "b") 45300 day2; mkReading (str "a") 45213 day1].

(** ** Further predicates *)

Definition all_white_space (s : jsstring) : Prop :=
  Forall (fun c => is_white_space c = true) s.

Definition all_digits (s : jsstring) : Prop :=
  Forall (fun c => is_digit c = true) s.


Definition is_ReaderLoad (e : Event) : bool :=
  match e with ReaderLoad _ _ => true | _ => false end.

(** Nothing is pending and the file input holds no selection. *)
Definition idle (w : World) : Prop :=
  loading (state w) = false /\ tasks (host w) = []
  /\ fileInput (host w) = None.

(** The storage slot holds the serialization of the current readings. *)
Definition mirrored (JSON_stringify : list Reading -> jsstring) (w : World)
  : Prop :=
  storage (host w) = Some (JSON_stringify (readings (state w))).


(** No two readings have the same timestamp. *)
Definition distinct_times (Date_getTime : jsstring -> option Z)
    (rs : list Reading) : Prop :=
  NoDup (map (fun r => Date_getTime (date r)) rs).

(** A reading taken no earlier than another shows no smaller a value. *)
Definition ascending_values (Date_getTime : jsstring -> option Z)
    (rs : list Reading) : Prop :=
  forall a b, In a rs -> In b rs -> date_le Date_getTime a b ->
              value a <= value b.

(** ** The chart effect *)

(** What [new Chart(ctx, ...)] is given, the fixed styling apart. *)
Record ChartConfig : Type := mkChartConfig {
  chart_labels : list jsstring;
  dataset_label : jsstring;
  dataset_data : list Z
}.

Record ChartInstance : Type := mkChart {
  config : ChartConfig;
  destroyed : bool
}.

(** Every chart constructed so far, and [chartInstance.current] as an index
    into them. *)
Record ChartHost : Type := mkChartHost {
  charts : list ChartInstance;
  chartInstance : option nat
}.

Definition no_charts : ChartHost := mkChartHost [] None.

Fixpoint mark_destroyed (i : nat) (l : list ChartInstance)
  : list ChartInstance :=
  match i, l with
  | _, [] => []
  | O, ch :: l' => mkChart (config ch) true :: l'
  | S i', ch :: l' => ch :: mark_destroyed i' l'
  end.

(** [if (chartInstance.current) chartInstance.current.destroy()] *)
Definition destroy_current (c : ChartHost) : ChartHost :=
  match chartInstance c with
  | Some i => mkChartHost (mark_destroyed i (charts c)) (chartInstance c)
  | None => c
  end.

(** [chartInstance.current = new Chart(ctx, cfg)] *)
Definition new_Chart (cfg : ChartConfig) (c : ChartHost) : ChartHost :=
  mkChartHost (charts c ++ [mkChart cfg false])
              (Some (List.length (charts c))).

Definition is_chart (v : View) : bool :=
  match v with chart => true | table => false end.

Definition distance_traveled : jsstring := str "Distance Traveled".
Definition odometer_reading : jsstring := str "Odometer Reading".

Section Chart.

Variable Date_getTime : jsstring -> option Z.

(** [formatDate], which renders a date in the locale of the browser. *)
Variable formatDate : jsstring -> jsstring.

Definition rows (s : State) : list DisplayReading :=
  displayReadings Date_getTime (readings s) (zeroReadings s).

(** [chartRef.current]: the canvas is rendered, and the ref set, when there
    are rows and the view is not the table. *)
Definition chartRef (s : State) : bool :=
  match rows s with
  | [] => false
  | _ :: _ => is_chart (view s)
  end.

Definition chart_config (s : State) : ChartConfig :=
  {| chart_labels := map (fun r => formatDate (d_date r)) (rows s);
     dataset_label := if zeroReadings s then distance_traveled
                      else odometer_reading;
     dataset_data := map displayValue (rows s) |}.

(** The body of the chart effect after a render that shows [s];
    [getContext] tells whether the canvas gives a 2d context. *)
Definition chart_effect (s : State) (getContext : bool) (c : ChartHost)
  : ChartHost :=
  if is_chart (view s) && chartRef s then
    let c1 := destroy_current c in
    if getContext then new_Chart (chart_config s) c1 else c1
  else c.

(** The function the effect returns, run before the effect runs again. *)
Definition chart_cleanup (c : ChartHost) : ChartHost := destroy_current c.

(** One render: the cleanup of the previous run of the effect, then the
    effect; its dependencies hold [displayReadings], a new array in every
    render, so it runs after every render. *)
Definition commit (c : ChartHost) (r : State * bool) : ChartHost :=
  chart_effect (fst r) (snd r) (chart_cleanup c).

Definition commits (rs : list (State * bool)) : ChartHost :=
  fold_left commit rs no_charts.

End Chart.

(** The charts that have not been destroyed. *)
Definition live_charts (c : ChartHost) : list ChartConfig :=
  map config (filter (fun ch => negb (destroyed ch)) (charts c)).

Definition all_destroyed (l : list ChartInstance) : Prop :=
  Forall (fun ch => destroyed ch = true) l.

(** All charts are destroyed, or all but the last, which is the current
    one. *)
Definition one_chart_at_most (c : ChartHost) : Prop :=
  all_destroyed (charts c)
  \/ exists l cfg, charts c = l ++ [mkChart cfg false]
                   /\ all_destroyed l
                   /\ chartInstance c = Some (List.length l).


(** ** Further sample values *)

Definition stored_reading : Reading := mkReading (str "abc") 45213 day1.

Definition later_reading : Reading := mkReading (str "abd") 45300 day2.

(** A reader for the examples that also reads back the one-reading text. *)
Definition sample_parse_back (s : jsstring) : option (list Reading) :=
  if jsstring_eqb s (sample_stringify [stored_reading])
  then Some [stored_reading] else sample_parse s.

(** One reading has been ingested. *)
Definition ingested_world : World :=
  world_after (ingestion (str "045213") (str "abc") day1).

(** A file has been chosen in a build without a credential. *)
Definition no_key_world : World :=
  match run None sample_stringify (sample_mount None)
          [ClickAddReading; PickerChoose sample_file false] with
  | Some w => w
  | None => sample_mount None
  end.

Definition data_url_prefix : jsstring := str "data:image/jpeg;base64".
Definition data_url_payload : jsstring := str "AAAA".


(** ** JavaScript numbers, as the engine holds them *)

(** The integer-valued numbers of the engine: the values [parseInt]
    returns and their differences.  [JsInt z] is a finite double whose value
    is the integer [z]; the two zeros are not told apart. *)
Inductive JsNumber : Type :=
| JsNaN
| JsInfinity (negative : bool)
| JsInt (z : Z).

(** A natural number rounded to 53 significant bits, ties to even. *)
Definition round_to_53_bits (n : Z) : Z :=
  let e := Z.log2 n - 52 in
  if e <=? 0 then n
  else
    let q := n / 2 ^ e in
    let r := n mod 2 ^ e in
    let half := 2 ^ (e - 1) in
    (if (half <? r) || ((r =? half) && Z.odd q) then q + 1 else q) * 2 ^ e.

(** The Number value of a mathematical integer: the nearest double, or an
    infinity when that would reach 2^1024. *)
Definition to_double (z : Z) : JsNumber :=
  let m := round_to_53_bits (Z.abs z) in
  if 2 ^ 1024 <=? m then JsInfinity (z <? 0) else JsInt (Z.sgn z * m).

(** [parseInt(s, 10)] as a Number.  (Beyond 20 significant digits the
    standard lets an engine drop the later digits before rounding.) *)
Definition js_parseInt (s : jsstring) : JsNumber :=
  match parseInt s with
  | None => JsNaN
  | Some z => to_double z
  end.

(** [a - b] *)
Definition js_sub (a b : JsNumber) : JsNumber :=
  match a, b with
  | JsNaN, _ => JsNaN
  | _, JsNaN => JsNaN
  | JsInfinity s, JsInfinity t => if Bool.eqb s t then JsNaN else JsInfinity s
  | JsInfinity s, JsInt _ => JsInfinity s
  | JsInt _, JsInfinity t => JsInfinity (negb t)
  | JsInt x, JsInt y => to_double (x - y)
  end.

(** The integers that every double operation above keeps exact. *)
Definition safe_value (v : Z) : Prop := Z.abs v <= 2 ^ 52.

(** ** The derived view over the numbers of the engine *)

Record JsReading : Type := mkJsReading {
  jr_id : jsstring;
  jr_value : JsNumber;
  jr_date : jsstring
}.

Record JsDisplayReading : Type := mkJsDisplayReading {
  jd_id : jsstring;
  jd_value : JsNumber;
  jd_date : jsstring;
  jd_displayValue : JsNumber
}.

(** A reading of the integer model, as the engine holds it. *)
Definition as_stored (r : Reading) : JsReading :=
  mkJsReading (id r) (JsInt (value r)) (date r).

Definition as_shown (d : DisplayReading) : JsDisplayReading :=
  mkJsDisplayReading (d_id d) (JsInt (d_value d)) (d_date d)
                     (JsInt (displayValue d)).

Section JsProjection.

Variable Date_getTime : jsstring -> option Z.

(** The comparator's result is positive. *)
Definition js_sorts_after (a b : JsReading) : bool :=
  match Date_getTime (jr_date a), Date_getTime (jr_date b) with
  | Some ta, Some tb => 0 <? ta - tb
  | _, _ => false
  end.

Fixpoint js_sort_insert (x : JsReading) (l : list JsReading)
  : list JsReading :=
  match l with
  | [] => [x]
  | y :: l' => if js_sorts_after x y then y :: js_sort_insert x l' else x :: l
  end.

(** [[...readings].sort(...)] *)
Definition js_sortedReadings (rs : list JsReading) : list JsReading :=
  fold_right js_sort_insert [] rs.

(** [sortedReadings.length > 0 ? sortedReadings[0].value : 0] *)
Definition js_initialReading (rs : list JsReading) : JsNumber :=
  match js_sortedReadings rs with
  | r :: _ => jr_value r
  | [] => JsInt 0
  end.

(** [displayValue: zeroReadings ? r.value - initialReading : r.value] *)
Definition js_displayReadings (rs : list JsReading) (zero : bool)
  : list JsDisplayReading :=
  map (fun r =>
         mkJsDisplayReading (jr_id r) (jr_value r) (jr_date r)
           (if zero then js_sub (jr_value r) (js_initialReading rs)
            else jr_value r))
      (js_sortedReadings rs).

Definition js_reading_of (d : JsDisplayReading) : JsReading :=
  mkJsReading (jd_id d) (jd_value d) (jd_date d).

Definition js_valid_date (r : JsReading) : Prop :=
  Date_getTime (jr_date r) <> None.

Definition js_date_le (a b : JsReading) : Prop :=
  match Date_getTime (jr_date a), Date_getTime (jr_date b) with
  | Some ta, Some tb => ta <= tb
  | _, _ => False
  end.

End JsProjection.

(** ** Mounting on any stored text *)

(** What [JSON.parse] does with the stored text: it throws, or returns an
    array of readings, or returns a value that cannot be iterated ([null], a
    number, a boolean, an object).  Other values (strings, arrays of other
    elements) are not modelled. *)
Inductive Parsed : Type :=
| ParseThrows
| ParsedReadings (rs : list Reading)
| ParsedNotIterable.

(** How mounting ends: the component is mounted, or the render after the
    load effect throws at [[...readings]] and the component is gone. *)
Inductive Startup : Type :=
| Mounted (w : World)
| RenderThrows (h : Host).

Section Startup.

Variable JSON_parse_any : jsstring -> Parsed.
Variable JSON_stringify : list Reading -> jsstring.

(** [JSON.parse] where it throws or returns an array of readings. *)
Definition parse_readings (s : jsstring) : option (list Reading) :=
  match JSON_parse_any s with
  | ParsedReadings rs => Some rs
  | _ => None
  end.

(** The load effect, the save effect of the first render, and the render of
    what the load effect has set: [setReadings] takes whatever [JSON.parse]
    returned. *)
Definition startup (stored : option jsstring) : Startup :=
  let h0 := initial_host stored in
  if truthy stored then
    match stored with
    | Some text =>
        match JSON_parse_any text with
        | ParseThrows =>
            Mounted (render JSON_stringify
                       (mkWorld initial_state
                          (save_effect JSON_stringify initial_state
                             (console_error h0 FailedToParseReadings))) [])
        | ParsedReadings rs =>
            Mounted (render JSON_stringify
                       (mkWorld initial_state
                          (save_effect JSON_stringify initial_state h0))
                       [setReadings (fun _ => rs)])
        | ParsedNotIterable =>
            RenderThrows (save_effect JSON_stringify initial_state h0)
        end
    | None => Mounted (mkWorld initial_state
                         (save_effect JSON_stringify initial_state h0))
    end
  else Mounted (mkWorld initial_state
                  (save_effect JSON_stringify initial_state h0)).

End Startup.

(** A response of [n] nines. *)
Definition nines (n : nat) : jsstring := repeat 57%N n.

(** A reader for the examples that knows the text "null". *)
Definition sample_parse_any (s : jsstring) : Parsed :=
  if jsstring_eqb s (str "null") then ParsedNotIterable
  else match sample_parse s with
       | Some rs => ParsedReadings rs
       | None => ParseThrows
       end.

Definition infinite_reading : JsReading :=
  mkJsReading (str "abc") (js_parseInt (nines 400)) day1.


(** The sample readings, as the engine holds them. *)
Definition sample_numbers : list JsReading := map as_stored sample_readings.

(** ** Response validation *)

Lemma recognize_undefined : recognize None = RecognitionFailure.
Proof. reflexivity. Qed.

Lemma recognize_trimmed (r : jsstring) :
  recognize (Some r) =
    match trim r with
    | [] => RecognitionFailure
    | _ :: _ =>
        match parseInt (trim r) with
        | None => RecognitionFailure
        | Some v => if v =? -1 then RecognitionFailure else RecognitionSuccess v
        end
    end.
Proof.
  unfold recognize, response_text, unreadable, numberValue.
  cbn [option_map truthy].
  destruct (trim r) as [|c k] eqn:Et; [reflexivity|].
  cbn [negb orb].
  destruct (parseInt (c :: k)) as [v|]; cbn [is_sentinel isNaN].
  - destruct (v =? -1); reflexivity.
  - reflexivity.
Qed.

(** C1, as the claim states its last example: the response "12a456" is
    not classified as a failure, because [parseInt] reads the digits in
    front of the first character that is no digit. *)
Lemma nonnumeric_suffix_is_accepted :
  recognize (Some (str "12a456")) <> RecognitionFailure.
Proof. vm_compute. discriminate. Qed.

(** C1 (amended): for every response the validation fails exactly when the
    text is undefined, or empty after trimming, or [parseInt] of the trimmed
    text is -1 or NaN; otherwise it succeeds with the number [parseInt]
    read.  "123456" gives 123456; "-1" and "" fail; "12a456" gives 12. *)
Theorem recognition_classification (response : option jsstring) :
  (recognize response = RecognitionFailure <->
     match response with
     | None => True
     | Some r =>
         trim r = [] \/ parseInt (trim r) = Some (-1) \/ parseInt (trim r) = None
     end)
  /\ (forall v : Z,
        recognize response = RecognitionSuccess v <->
          exists r, response = Some r /\ trim r <> []
                    /\ parseInt (trim r) = Some v /\ v <> -1)
  /\ recognize (Some (str "123456")) = RecognitionSuccess 123456
  /\ recognize (Some (str "-1")) = RecognitionFailure
  /\ recognize (Some (str "")) = RecognitionFailure
  /\ recognize (Some (str "12a456")) = RecognitionSuccess 12.
Proof.
  split; [|split; [|repeat split; reflexivity]].
  - destruct response as [r|]; [|split; auto using recognize_undefined].
    rewrite recognize_trimmed.
    destruct (trim r) as [|c k]; [split; auto|].
    destruct (parseInt (c :: k)) as [v|].
    + destruct (Z.eqb_spec v (-1)) as [->|Hv].
      * split; auto.
      * split; [discriminate|].
        intros [H|[H|H]]; try discriminate.
        injection H as H. contradiction.
    + split; auto.
  - intro v. destruct response as [r|].
    + rewrite recognize_trimmed.
      destruct (trim r) as [|c k] eqn:Et.
      * split; [discriminate|]. intros (r' & Hr & Hne & _).
        injection Hr as <-. rewrite Et in Hne. contradiction.
      * destruct (parseInt (c :: k)) as [u|] eqn:Ep.
        -- destruct (Z.eqb_spec u (-1)) as [->|Hu].
           ++ split; [discriminate|].
              intros (r' & Hr & _ & Hp & Hv). injection Hr as <-.
              rewrite Et, Ep in Hp. injection Hp as <-. contradiction.
           ++ split.
              ** injection 1 as <-. exists r. rewrite Et, Ep.
                 repeat split; auto. discriminate.
              ** intros (r' & Hr & _ & Hp & _). injection Hr as <-.
                 rewrite Et, Ep in Hp. injection Hp as <-. reflexivity.
        -- split; [discriminate|].
           intros (r' & Hr & _ & Hp & _). injection Hr as <-.
           rewrite Et, Ep in Hp. discriminate.
    + rewrite recognize_undefined. split; [discriminate|].
      intros (r' & Hr & _). discriminate.
Qed.


(** ** Renders, effects and handlers *)

Section AppFacts.

Variable API_KEY : option jsstring.
Variable JSON_parse : jsstring -> option (list Reading).
Variable JSON_stringify : list Reading -> jsstring.

Local Abbreviation render := (render JSON_stringify).
Local Abbreviation dispatch := (dispatch JSON_stringify).
Local Abbreviation mount := (mount JSON_parse JSON_stringify).
Local Abbreviation handleFileUpload := (handleFileUpload API_KEY).
Local Abbreviation step := (step API_KEY JSON_stringify).
Local Abbreviation run := (run API_KEY JSON_stringify).
Local Abbreviation reachable := (reachable API_KEY JSON_parse JSON_stringify).
Local Abbreviation fails := (fails API_KEY).

(** A queue without [setReadings] changes neither the readings nor the
    host: the save effect does not run. *)
Lemma fold_untouched (q : list Update) :
  existsb touches_readings q = false ->
  forall s, readings (fold_left apply_update q s) = readings s.
Proof.
  induction q as [|u q IH]; intros Hq s; [reflexivity|].
  cbn [existsb] in Hq. apply orb_false_iff in Hq as [Hu Hq].
  cbn [fold_left]. rewrite IH by assumption.
  destruct u; try reflexivity. discriminate.
Qed.

Lemma render_untouched (w : World) (q : list Update) :
  existsb touches_readings q = false ->
  readings (state (render w q)) = readings (state w)
  /\ host (render w q) = host w.
Proof.
  intro Hq. unfold render. cbn [state host]. rewrite Hq.
  split; [apply fold_untouched; assumption | reflexivity].
Qed.

(** No render touches the pending work, the chooser, the request log or
    the file input. *)
Lemma render_host (w : World) (q : list Update) :
  tasks (host (render w q)) = tasks (host w)
  /\ picker (host (render w q)) = picker (host w)
  /\ requests (host (render w q)) = requests (host w)
  /\ fileInput (host (render w q)) = fileInput (host w).
Proof.
  unfold render. cbn [state host].
  destruct (existsb touches_readings q); repeat split; reflexivity.
Qed.

(** C2 (as the code behaves): the handler of "Yes, Clear" removes the
    storage slot, but the render it causes runs the save effect, so when
    Clear-All is over the collection is empty and the slot exists again,
    holding the serialized empty collection. *)
Theorem clear_all_rewrites_the_slot (w : World) :
  let w' := dispatch w (clearAllReadings (host w)) in
  storage (snd (clearAllReadings (host w))) = None
  /\ readings (state w') = []
  /\ storage (host w') = Some (JSON_stringify [])
  /\ storage (host w') <> None
  /\ step w ClickYesClear
     = if showClearConfirm (state w) then Some w' else None.
Proof.
  cbn. repeat split; try reflexivity. discriminate.
Qed.

(** *** What one event does to the readings *)

Lemma File_eqb_refl (f : File) : File_eqb f f = true.
Proof.
  unfold File_eqb, jsstring_eqb.
  destruct (list_eq_dec N.eq_dec (file_name f) (file_name f)); [|contradiction].
  destruct (list_eq_dec N.eq_dec (file_type f) (file_type f)); [|contradiction].
  reflexivity.
Qed.

(** The handler run by [onChange], on a host whose input holds a file. *)
Lemma handleFileUpload_outcomes (reader_throws : bool) (h : Host) (f : File) :
  fileInput h = Some f ->
  handleFileUpload reader_throws h =
    if truthy API_KEY then
      if reader_throws then
        ([setLoading true; setErrorMsg None;
          setErrorMsg (Some error_reading_file); setLoading false],
         console_error h ErrorLogged)
      else
        ([setLoading true; setErrorMsg None],
         set_tasks h (tasks h ++ [ReadingFile f
            match API_KEY with Some k => k | None => [] end]))
    else
      ([setLoading true; setErrorMsg None;
        setErrorMsg (Some configuration_error); setLoading false],
       clear_fileInput h).
Proof.
  intro Hf. unfold handleFileUpload. rewrite Hf.
  destruct API_KEY as [[|c k]|]; reflexivity.
Qed.

(** An [onChange] either does not fire (same selection) or runs the handler
    on the new selection. *)
Lemma step_PickerChoose (w w' : World) (f : File) (reader_throws : bool) :
  step w (PickerChoose f reader_throws) = Some w' ->
  picker (host w) = true
  /\ (w' = set_host w (set_picker (host w) false)
      \/ w' = dispatch w (handleFileUpload reader_throws
                 (set_fileInput (set_picker (host w) false) (Some f)))).
Proof.
  unfold step. destruct (picker (host w)); [|discriminate].
  destruct (fileInput (host w)) as [g|].
  - destruct (File_eqb f g); injection 1 as <-; auto.
  - injection 1 as <-; auto.
Qed.

Lemma step_Settle (w w' : World) (i : nat) (res : Settlement)
    (newId now : jsstring) :
  step w (Settle i res newId now) = Some w' ->
  (exists req, nth_error (tasks (host w)) i = Some (Recognizing req))
  /\ w' = dispatch w (generateContent_settled res newId now
            (set_tasks (host w) (remove_nth i (tasks (host w))))).
Proof.
  unfold step. destruct (nth_error (tasks (host w)) i) as [[f k|req]|];
    try discriminate.
  injection 1 as <-. split; [exists req|]; reflexivity.
Qed.

(** C10: an ingestion attempt that fails, whether for a missing credential,
    a reader that throws or reports an error, a recognition call that
    throws, or a response classified as unreadable, leaves the readings as
    they were, and the stored copy with them. *)
Theorem failed_ingestion_keeps_the_readings (w w' : World) (e : Event) :
  step w e = Some w' ->
  fails e ->
  readings (state w') = readings (state w)
  /\ storage (host w') = storage (host w).
Proof.
  intros Hstep Hfails. destruct e; simpl in Hfails; try contradiction.
  - apply step_PickerChoose in Hstep as [_ [-> | ->]]; [split; reflexivity|].
    rewrite (handleFileUpload_outcomes _ _ f) by reflexivity.
    destruct (truthy API_KEY); [|split; reflexivity].
    destruct Hfails as [Hfails| ->]; [discriminate|]. split; reflexivity.
  - unfold step in Hstep.
    destruct (nth_error (tasks (host w)) i) as [[f k|req]|]; try discriminate.
    injection Hstep as <-. split; reflexivity.
  - apply step_Settle in Hstep as [_ ->].
    destruct res as [response|]; [|split; reflexivity].
    unfold generateContent_settled. rewrite Hfails. split; reflexivity.
Qed.

(** Every event leaves the readings alone, empties them (Clear-All), or is
    the settling of a recognition call whose response was accepted, which
    appends one reading holding the number read from the response. *)
Lemma step_readings (w w' : World) (e : Event) :
  step w e = Some w' ->
  readings (state w') = readings (state w)
  \/ (e = ClickYesClear /\ readings (state w') = [])
  \/ exists i response v newId now,
       e = Settle i (Fulfilled response) newId now
       /\ recognize response = RecognitionSuccess v
       /\ readings (state w') = readings (state w) ++ [mkReading newId v now].
Proof.
  intro Hstep. destruct e.
  - unfold step in Hstep. destruct (loading (state w));
      injection Hstep as <-; left; reflexivity.
  - unfold step in Hstep. destruct (picker (host w)); [|discriminate].
    injection Hstep as <-. left; reflexivity.
  - apply step_PickerChoose in Hstep as [_ [-> | ->]]; [left; reflexivity|].
    rewrite (handleFileUpload_outcomes _ _ f) by reflexivity.
    destruct (truthy API_KEY); [destruct reader_throws|]; left; reflexivity.
  - unfold step in Hstep.
    destruct (nth_error (tasks (host w)) i) as [[f k|req]|]; try discriminate.
    injection Hstep as <-. left; reflexivity.
  - unfold step in Hstep.
    destruct (nth_error (tasks (host w)) i) as [[f k|req]|]; try discriminate.
    injection Hstep as <-. left; reflexivity.
  - apply step_Settle in Hstep as [_ ->].
    destruct res as [response|]; [|left; reflexivity].
    destruct (recognize response) as [|v] eqn:Hr.
    + left. unfold generateContent_settled. rewrite Hr. reflexivity.
    + right; right. exists i, response, v, newId, now.
      unfold generateContent_settled. rewrite Hr. repeat split; reflexivity.
  - injection Hstep as <-. left; reflexivity.
  - injection Hstep as <-. left; reflexivity.
  - injection Hstep as <-. left; reflexivity.
  - injection Hstep as <-. left; reflexivity.
  - unfold step in Hstep. destruct (showClearConfirm (state w));
      [|discriminate]. injection Hstep as <-. left; reflexivity.
  - unfold step in Hstep. destruct (showClearConfirm (state w));
      [|discriminate]. injection Hstep as <-. right; left. split; reflexivity.
Qed.

(** C8: without a credential ([process.env.API_KEY] undefined or empty) a
    run of the upload handler on a selected file ends at once with the
    configuration message, which is not the recognition-failure message; it
    starts no reader, issues no recognition request and appends nothing. *)
Theorem missing_credential_is_a_configuration_error
    (w : World) (file : File) (reader_throws : bool) :
  truthy API_KEY = false ->
  fileInput (host w) = Some file ->
  let w' := dispatch w (handleFileUpload reader_throws (host w)) in
  errorMsg (state w') = Some configuration_error
  /\ configuration_error <> could_not_read
  /\ loading (state w') = false
  /\ tasks (host w') = tasks (host w)
  /\ requests (host w') = requests (host w)
  /\ readings (state w') = readings (state w)
  /\ storage (host w') = storage (host w)
  /\ fileInput (host w') = None.
Proof.
  intros Hkey Hfile w'. subst w'.
  rewrite (handleFileUpload_outcomes _ _ file) by assumption.
  rewrite Hkey. repeat split; try reflexivity.
  intro H. vm_compute in H. discriminate H.
Qed.

(** *** Invariants of the reachable worlds *)

Lemma run_invariant (P : World -> Prop) :
  (forall w e w', P w -> step w e = Some w' -> P w') ->
  forall es w w', P w -> run w es = Some w' -> P w'.
Proof.
  intros Hstep es. induction es as [|e es IH]; intros w w' Hw Hrun.
  - injection Hrun as <-. assumption.
  - cbn in Hrun. destruct (step w e) as [w1|] eqn:He; [|discriminate].
    eapply IH; [eapply Hstep; eassumption | assumption].
Qed.

Lemma reachable_invariant (P : World -> Prop) :
  (forall stored, P (mount stored)) ->
  (forall w e w', P w -> step w e = Some w' -> P w') ->
  forall w, reachable w -> P w.
Proof.
  intros Hinit Hstep w (stored & es & Hrun).
  eapply run_invariant; [exact Hstep | apply Hinit | exact Hrun].
Qed.

(** Mounting starts no task, opens no chooser and issues no request. *)
Lemma mount_host (stored : option jsstring) :
  tasks (host (mount stored)) = []
  /\ picker (host (mount stored)) = false
  /\ requests (host (mount stored)) = []
  /\ loading (state (mount stored)) = false.
Proof.
  unfold mount, load_effect. cbn [initial_host storage].
  destruct (truthy stored); [destruct stored as [s|];
    [destruct (JSON_parse s)|]|]; repeat split; reflexivity.
Qed.

Lemma nth_error_single {A : Type} (l : list A) (i : nat) (x : A) :
  (List.length l <= 1)%nat ->
  nth_error l i = Some x ->
  l = [x] /\ i = O.
Proof.
  destruct l as [|y [|z l]]; cbn [List.length]; intros Hlen Hnth.
  - destruct i; discriminate.
  - destruct i as [|i]; [injection Hnth as ->; auto|].
    destruct i; discriminate.
  - lia.
Qed.

Lemma replace_nth_length {A : Type} (i : nat) (y : A) (l : list A) :
  List.length (replace_nth i y l) = List.length l.
Proof.
  revert i. induction l as [|x l IH]; intros [|i]; cbn; auto.
Qed.

(** Inverts a transition: unfolds [step], decides its guards and replaces
    the successor world by the term that computes it. *)
Ltac step_inv H :=
  unfold step in H;
  repeat match type of H with
    | context [match nth_error ?l ?i with _ => _ end] =>
        let Hn := fresh "Hnth" in
        destruct (nth_error l i) as [[? ?|?]|] eqn:Hn
    | context [match fileInput ?h with _ => _ end] =>
        destruct (fileInput h) eqn:?
    | context [if ?b then _ else _] => destruct b eqn:?
    end;
  try discriminate H; injection H as <-.

(** Decides the branches of the upload handler and of the settling of a
    recognition call in the goal. *)
Ltac handler_cases f :=
  try rewrite (handleFileUpload_outcomes _ _ f) by reflexivity;
  repeat match goal with
    | |- context [if truthy API_KEY then _ else _] =>
        destruct (truthy API_KEY) eqn:?
    | |- context [if ?b then _ else _] => destruct b eqn:?
    | |- context [generateContent_settled ?res _ _ _] =>
        unfold generateContent_settled; destruct res as [?response|]
    | |- context [match recognize ?r with _ => _ end] =>
        destruct (recognize r) eqn:?
    end.

Lemma single_flight_step (w w' : World) (e : Event) :
  single_flight w -> step w e = Some w' -> single_flight w'.
Proof.
  unfold single_flight. intros (Hlen & Hbusy & Hpick) Hstep.
  assert (Hidle : loading (state w) = false -> tasks (host w) = []).
  { intro Hl. destruct (tasks (host w)); [reflexivity|].
    rewrite Hbusy in Hl; discriminate. }
  destruct e; step_inv Hstep.
  - intuition (try congruence; try discriminate; try lia).
  - cbn. intuition (try congruence; try discriminate; try lia).
  - cbn. intuition (try congruence; try discriminate; try lia).
  - cbn. intuition (try congruence; try discriminate; try lia).
  - rewrite Hpick in Hidle by reflexivity.
    handler_cases f; cbn; rewrite Hidle by reflexivity; cbn;
      intuition (try congruence; try discriminate; try lia).
  - rewrite Hpick in Hidle by reflexivity.
    handler_cases f; cbn; rewrite Hidle by reflexivity; cbn;
      intuition (try congruence; try discriminate; try lia).
  - cbn. rewrite replace_nth_length. repeat split; auto.
    intros _. apply Hbusy. intro Ht. rewrite Ht in Hnth.
    destruct i; discriminate.
  - destruct (nth_error_single _ _ _ Hlen Hnth) as [Ht ->].
    cbn. rewrite Ht. cbn. intuition (try congruence; try discriminate; try lia).
  - destruct (nth_error_single _ _ _ Hlen Hnth) as [Ht ->].
    handler_cases sample_file; cbn; rewrite Ht; cbn;
      intuition (try congruence; try discriminate; try lia).
  - cbn. intuition.
  - cbn. intuition.
  - cbn. intuition.
  - cbn. intuition.
  - cbn. intuition.
  - cbn. intuition.
Qed.

Lemma single_flight_reachable (w : World) : reachable w -> single_flight w.
Proof.
  apply reachable_invariant.
  - intro stored. destruct (mount_host stored) as (Ht & Hp & _ & Hl).
    unfold single_flight. rewrite Ht, Hp, Hl. cbn.
    repeat split; auto; try contradiction; discriminate.
  - intros w0 e w1. apply single_flight_step.
Qed.

(** C5: in every world the mounted component reaches, at most one
    ingestion is pending; while one is pending a click on "Add a Reading" is
    ignored (the world stays as it is) and no chooser is open from which a
    file could be selected; and the settling of the recognition call removes
    the pending task, so that it is answered once, and appends at most one
    reading. *)
Theorem single_flight_guard (w : World) :
  reachable w ->
  (List.length (tasks (host w)) <= 1)%nat
  /\ (tasks (host w) <> [] -> step w ClickAddReading = Some w)
  /\ (tasks (host w) <> [] ->
      forall f reader_throws, step w (PickerChoose f reader_throws) = None)
  /\ (forall i res newId now w',
        step w (Settle i res newId now) = Some w' ->
        tasks (host w') = []
        /\ (readings (state w') = readings (state w)
            \/ exists r, readings (state w') = readings (state w) ++ [r])).
Proof.
  intro Hreach.
  destruct (single_flight_reachable w Hreach) as (Hlen & Hbusy & Hpick).
  split; [assumption|]. split; [|split].
  - intro Ht. unfold step. rewrite (Hbusy Ht). reflexivity.
  - intros Ht f reader_throws. unfold step.
    destruct (picker (host w)); [|reflexivity].
    rewrite (Hbusy Ht) in Hpick. discriminate (Hpick eq_refl).
  - intros i res newId now w' Hstep. split.
    + destruct (step_Settle _ _ _ _ _ _ Hstep) as [[req Hnth] ->].
      destruct (nth_error_single _ _ _ Hlen Hnth) as [Ht ->].
      unfold dispatch. destruct (render_host
        (set_host w (snd (generateContent_settled res newId now
           (set_tasks (host w) (remove_nth 0 (tasks (host w)))))))
        (fst (generateContent_settled res newId now
           (set_tasks (host w) (remove_nth 0 (tasks (host w)))))))
        as (-> & _).
      rewrite Ht. destruct res; reflexivity.
    + destruct (step_readings _ _ _ Hstep)
        as [H|[[He _]|(i' & resp & v & id' & now' & _ & _ & H)]].
      * left; assumption.
      * discriminate He.
      * right. eexists; exact H.
Qed.

(** X16: without a credential no world the component reaches has a pending
    task or an issued recognition request. *)
Lemma no_credential_no_request (w : World) :
  truthy API_KEY = false ->
  reachable w ->
  tasks (host w) = [] /\ requests (host w) = [].
Proof.
  intro Hkey. revert w. apply reachable_invariant.
  - intro stored. destruct (mount_host stored) as (Ht & _ & Hr & _). auto.
  - intros w e w' [Ht Hr] Hstep.
    destruct e; step_inv Hstep;
      try (rewrite Ht in Hnth; destruct i; discriminate);
      handler_cases f; try discriminate; cbn; auto.
Qed.

(** Once the button is disabled with nothing pending, it stays so. *)
Lemma stuck_step (w w' : World) (e : Event) :
  stuck w -> step w e = Some w' -> stuck w'.
Proof.
  unfold stuck. intros (Hl & Ht & Hp) Hstep.
  destruct e; step_inv Hstep;
    try (rewrite Ht in Hnth; destruct i; discriminate);
    try congruence; cbn; auto.
Qed.

Lemma stuck_forever (w w' : World) (es : list Event) :
  stuck w -> run w es = Some w' -> loading (state w') = true.
Proof.
  intros Hw Hrun.
  apply (run_invariant stuck (fun w0 e w1 => stuck_step w0 w1 e) es w w' Hw Hrun).
Qed.

(** X17: the outcomes that do return to idle: when a recognition call
    settles, however it settles, loading ends and the file input is
    cleared. *)
Lemma settling_returns_to_idle (w w' : World) (i : nat) (res : Settlement)
    (newId now : jsstring) :
  step w (Settle i res newId now) = Some w' ->
  loading (state w') = false /\ fileInput (host w') = None.
Proof.
  intro Hstep. apply step_Settle in Hstep as [_ ->].
  handler_cases sample_file; split; reflexivity.
Qed.

End AppFacts.

(** ** The derived view *)

Section ProjectionFacts.

Variable Date_getTime : jsstring -> option Z.

Local Abbreviation compareFn := (compareFn Date_getTime).
Local Abbreviation sorts_after := (sorts_after Date_getTime).
Local Abbreviation sort_insert := (sort_insert Date_getTime).
Local Abbreviation Array_sort := (Array_sort Date_getTime).
Local Abbreviation sortedReadings := (sortedReadings Date_getTime).
Local Abbreviation initialReading := (initialReading Date_getTime).
Local Abbreviation displayReadings := (displayReadings Date_getTime).
Local Abbreviation valid_date := (valid_date Date_getTime).
Local Abbreviation date_le := (date_le Date_getTime).
Local Abbreviation same_time := (same_time Date_getTime).

Lemma sort_insert_perm (x : Reading) (l : list Reading) :
  Permutation (x :: l) (sort_insert x l).
Proof.
  induction l as [|y l IH]; [reflexivity|].
  cbn. destruct (sorts_after x y); [|reflexivity].
  rewrite perm_swap. apply perm_skip. exact IH.
Qed.

Lemma Array_sort_perm (l : list Reading) : Permutation l (Array_sort l).
Proof.
  induction l as [|x l IH]; [reflexivity|].
  cbn. rewrite <- sort_insert_perm. apply perm_skip. exact IH.
Qed.

(** With dates that parse, the comparator decides the timestamp order. *)
Lemma sorts_after_false (x y : Reading) :
  valid_date x -> valid_date y -> sorts_after x y = false -> date_le x y.
Proof.
  unfold valid_date, sorts_after, compareFn, date_le.
  destruct (Date_getTime (date x)) as [tx|]; [|contradiction].
  destruct (Date_getTime (date y)) as [ty|]; [|contradiction].
  intros _ _ H. apply Z.ltb_ge in H. lia.
Qed.

Lemma sorts_after_true (x y : Reading) :
  sorts_after x y = true ->
  exists tx ty, Date_getTime (date x) = Some tx
                /\ Date_getTime (date y) = Some ty /\ ty < tx.
Proof.
  unfold sorts_after, compareFn.
  destruct (Date_getTime (date x)) as [tx|]; [|discriminate].
  destruct (Date_getTime (date y)) as [ty|]; [|discriminate].
  intro H. apply Z.ltb_lt in H. exists tx, ty. repeat split; lia.
Qed.

Lemma date_le_trans (x y z : Reading) :
  date_le x y -> date_le y z -> date_le x z.
Proof.
  unfold date_le.
  destruct (Date_getTime (date x)), (Date_getTime (date y)),
    (Date_getTime (date z)); try contradiction; lia.
Qed.

Lemma date_le_refl (x : Reading) : valid_date x -> date_le x x.
Proof.
  unfold valid_date, date_le.
  destruct (Date_getTime (date x)); [lia | contradiction].
Qed.

Lemma sort_insert_sorted (x : Reading) (l : list Reading) :
  valid_date x -> Forall valid_date l ->
  StronglySorted date_le l -> StronglySorted date_le (sort_insert x l).
Proof.
  intros Hx Hl Hs. induction Hs as [|y l Hs IH Hy].
  - cbn. constructor; constructor.
  - inversion Hl as [|? ? Hvy Hvl]; subst. cbn.
    destruct (sorts_after x y) eqn:Hxy.
    + constructor; [apply IH; assumption|].
      apply (Permutation_Forall (sort_insert_perm x l)).
      constructor; [|assumption].
      destruct (sorts_after_true _ _ Hxy) as (tx & ty & Hx' & Hy' & Hlt).
      unfold date_le. rewrite Hx', Hy'. lia.
    + assert (Hle : date_le x y) by (apply sorts_after_false; assumption).
      constructor; [constructor; assumption|].
      constructor; [assumption|].
      eapply Forall_impl; [|exact Hy].
      intros z Hz. eapply date_le_trans; eassumption.
Qed.

Lemma Array_sort_sorted (l : list Reading) :
  Forall valid_date l -> StronglySorted date_le (Array_sort l).
Proof.
  induction 1 as [|x l Hx Hl IH]; [constructor|].
  cbn. apply sort_insert_sorted; [assumption| |assumption].
  apply (Permutation_Forall (Array_sort_perm l)). assumption.
Qed.

(** Stability: inserting never moves a reading past one of the same
    timestamp, so the readings of any one timestamp keep their order. *)
Lemma sort_insert_stable (a x : Reading) (l : list Reading) :
  filter (same_time a) (sort_insert x l) = filter (same_time a) (x :: l).
Proof.
  induction l as [|y l IH]; [reflexivity|].
  cbn -[filter]. destruct (sorts_after x y) eqn:Hxy; [|reflexivity].
  cbn [filter] in *. rewrite IH.
  destruct (same_time a y) eqn:Hay; [|reflexivity].
  destruct (same_time a x) eqn:Hax; [|reflexivity].
  exfalso. destruct (sorts_after_true _ _ Hxy) as (tx & ty & Hx & Hy & Hlt).
  unfold same_time in Hay, Hax. rewrite Hx in Hax. rewrite Hy in Hay.
  destruct (Date_getTime (date a)) as [ta|]; [|discriminate].
  apply Z.eqb_eq in Hay, Hax. lia.
Qed.

Lemma Array_sort_stable (a : Reading) (l : list Reading) :
  filter (same_time a) (Array_sort l) = filter (same_time a) l.
Proof.
  induction l as [|x l IH]; [reflexivity|].
  unfold Array_sort in *. cbn [fold_right]. rewrite sort_insert_stable.
  cbn [filter]. rewrite IH. reflexivity.
Qed.

Lemma reading_of_display (rs : list Reading) (zero : bool) :
  map reading_of (displayReadings rs zero) = sortedReadings rs.
Proof.
  unfold displayReadings. rewrite map_map.
  rewrite <- (map_id (sortedReadings rs)) at 2.
  apply map_ext. intros [i v d]. reflexivity.
Qed.

Lemma displayValue_of (rs : list Reading) (zero : bool) (d : DisplayReading) :
  In d (displayReadings rs zero) ->
  displayValue d = if zero then d_value d - initialReading rs else d_value d.
Proof.
  unfold displayReadings. intro H. apply in_map_iff in H as (r & <- & _).
  reflexivity.
Qed.

(** C7: for a collection whose dates parse, the rows shown in absolute
    mode are the readings themselves, with their values unchanged, in the
    order of a stable sort by timestamp: a rearrangement of the collection,
    ascending by timestamp, in which the readings of any one timestamp keep
    the order they had in the collection. *)
Theorem absolute_projection_is_the_stable_sort (rs : list Reading) :
  Forall valid_date rs ->
  map reading_of (displayReadings rs false) = sortedReadings rs
  /\ (forall d, In d (displayReadings rs false) -> displayValue d = d_value d)
  /\ Permutation rs (sortedReadings rs)
  /\ StronglySorted date_le (sortedReadings rs)
  /\ (forall a, filter (same_time a) (sortedReadings rs)
                = filter (same_time a) rs).
Proof.
  intro Hv. split; [apply reading_of_display|]. split.
  - intros d Hd. apply (displayValue_of rs false d Hd).
  - split; [apply Array_sort_perm|]. split.
    + apply Array_sort_sorted; assumption.
    + intro a. apply Array_sort_stable.
Qed.

End ProjectionFacts.

(** ** Worked executions *)


(** The end-to-end example of the specification: "045213" on an empty store
    gives one reading of value 45213, shown as 45213, and as 0 once the
    zero-based mode is on. *)
Example ingest_045213 :
  let es := ingestion (str "045213") (str "abc") day1 in
  sample_run (sample_mount None) es = Some (world_after es)
  /\ map value (readings (state (world_after es))) = [45213]
  /\ map displayValue (shown sample_getTime (world_after es)) = [45213]
  /\ map displayValue
       (shown sample_getTime (world_after (es ++ [ToggleZeroReadings]))) = [0].
Proof. vm_compute. repeat split; reflexivity. Qed.

(** Clear-All after one ingestion: the collection is empty and the slot
    holds the text of the empty array. *)
Example clear_all_after_one_ingestion :
  let es := ingestion (str "123456") (str "abc") day1
            ++ [ClickClearAll; ClickYesClear] in
  sample_run (sample_mount None) es = Some (world_after es)
  /\ readings (state (world_after es)) = []
  /\ storage (host (world_after es)) = Some (str "[]").
Proof. vm_compute. repeat split; reflexivity. Qed.

(** C4 (as the code behaves): two ingestion attempts whose file read fails.
    When the reader reports an error, for which no handler is installed, the
    component is left loading with the file still selected and nothing
    pending.  When starting the reader throws, loading ends and the message
    is shown, but the file input keeps its selection, so that choosing the
    same file again fires no [onChange] and the handler does not run. *)
Theorem file_read_failure_is_not_cleaned_up :
  (let es := [ClickAddReading; PickerChoose sample_file false; ReaderError 0] in
   sample_run (sample_mount None) es = Some (world_after es)
   /\ loading (state (world_after es)) = true
   /\ fileInput (host (world_after es)) = Some sample_file
   /\ errorMsg (state (world_after es)) = None
   /\ stuck (world_after es))
  /\ (let es := [ClickAddReading; PickerChoose sample_file true] in
      sample_run (sample_mount None) es = Some (world_after es)
      /\ loading (state (world_after es)) = false
      /\ errorMsg (state (world_after es)) = Some error_reading_file
      /\ fileInput (host (world_after es)) = Some sample_file
      /\ sample_run (world_after es)
           [ClickAddReading; PickerChoose sample_file false]
         = Some (world_after es)).
Proof. vm_compute. repeat split; reflexivity. Qed.

(** After a reader error the button stays disabled whatever happens next. *)
Lemma reader_error_disables_the_button_for_good (es : list Event) (w : World) :
  sample_run (world_after [ClickAddReading; PickerChoose sample_file false;
                           ReaderError 0]) es = Some w ->
  loading (state w) = true.
Proof.
  apply stuck_forever. vm_compute. repeat split; reflexivity.
Qed.

(** ** Instances of the conditional statements *)

Lemma recognition_classification_witness :
  recognize (Some (str " 42 ")) = RecognitionSuccess 42.
Proof.
  apply (proj2 (proj1 (proj2
           (recognition_classification (Some (str " 42 ")))) 42)).
  exists (str " 42 "). split; [reflexivity|].
  split; [vm_compute; discriminate|].
  split; [reflexivity | discriminate].
Defined.

Lemma single_flight_guard_witness :
  reachable sample_key sample_parse sample_stringify recognizing_world
  /\ (List.length (tasks (host recognizing_world)) <= 1)%nat
  /\ sample_step recognizing_world ClickAddReading = Some recognizing_world.
Proof.
  assert (H : reachable sample_key sample_parse sample_stringify
                recognizing_world).
  { exists None, [ClickAddReading; PickerChoose sample_file false;
                  ReaderLoad 0 sample_dataURL]. reflexivity. }
  split; [exact H|].
  destruct (single_flight_guard sample_key sample_parse sample_stringify
              recognizing_world H) as (Hlen & Hclick & _ & _).
  split; [exact Hlen|]. apply Hclick. vm_compute. discriminate.
Defined.

Lemma missing_credential_witness :
  truthy None = false
  /\ fileInput (host file_chosen_world) = Some sample_file
  /\ errorMsg (state (dispatch sample_stringify file_chosen_world
        (handleFileUpload None false (host file_chosen_world))))
     = Some configuration_error.
Proof.
  split; [reflexivity|]. split; [reflexivity|].
  exact (proj1 (missing_credential_is_a_configuration_error None
           sample_stringify file_chosen_world sample_file false
           eq_refl eq_refl)).
Defined.

Lemma failed_ingestion_witness :
  let e := Settle 0 (Fulfilled (Some (str "-1"))) (str "abc") day1 in
  let w' := world_after (ingestion (str "-1") (str "abc") day1) in
  sample_step recognizing_world e = Some w'
  /\ fails sample_key e
  /\ readings (state w') = readings (state recognizing_world)
  /\ storage (host w') = storage (host recognizing_world).
Proof.
  intros e w'.
  assert (H : sample_step recognizing_world e = Some w') by reflexivity.
  assert (F : fails sample_key e) by reflexivity.
  split; [exact H|]. split; [exact F|].
  exact (failed_ingestion_keeps_the_readings sample_key sample_stringify
           recognizing_world w' e H F).
Defined.

Lemma sample_readings_valid : Forall (valid_date sample_getTime) sample_readings.
Proof.
  repeat constructor; unfold valid_date; vm_compute; discriminate.
Qed.

Lemma absolute_projection_witness :
  Forall (valid_date sample_getTime) sample_readings
  /\ StronglySorted (date_le sample_getTime)
       (sortedReadings sample_getTime sample_readings)
  /\ Permutation sample_readings (sortedReadings sample_getTime sample_readings).
Proof.
  split; [exact sample_readings_valid|].
  destruct (absolute_projection_is_the_stable_sort sample_getTime
              sample_readings sample_readings_valid)
    as (_ & _ & Hperm & Hsorted & _).
  split; [exact Hsorted | exact Hperm].
Defined.

Example sample_projection :
  map displayValue (displayReadings sample_getTime sample_readings false)
  = [45213; 45300]
  /\ map displayValue (displayReadings sample_getTime sample_readings true)
     = [0; 87].
Proof. vm_compute. split; reflexivity. Qed.

(** ** Further properties of the response validation *)

Lemma trimStart_white_space (ws s : jsstring) :
  all_white_space ws -> trimStart (ws ++ s) = trimStart s.
Proof.
  induction 1 as [|c ws Hc _ IH]; [reflexivity|].
  cbn. rewrite Hc. exact IH.
Qed.

Lemma trimStart_app (s t : jsstring) :
  trimStart s <> [] -> trimStart (s ++ t) = trimStart s ++ t.
Proof.
  induction s as [|c s IH]; cbn; [contradiction|].
  destruct (is_white_space c); [exact IH | reflexivity].
Qed.

Lemma trimStart_nil (s : jsstring) : trimStart s = [] -> all_white_space s.
Proof.
  induction s as [|c s IH]; cbn; [constructor|].
  destruct (is_white_space c) eqn:Hc; [|discriminate].
  intro H. apply Forall_cons; [exact Hc | exact (IH H)].
Qed.

Lemma all_white_space_rev (s : jsstring) :
  all_white_space s -> all_white_space (rev s).
Proof. apply Forall_rev. Qed.

Lemma trimEnd_white_space (s ws : jsstring) :
  all_white_space ws -> trimEnd (s ++ ws) = trimEnd s.
Proof.
  intro H. unfold trimEnd. rewrite rev_app_distr.
  rewrite trimStart_white_space by (apply all_white_space_rev; exact H).
  reflexivity.
Qed.

Lemma trim_padding (ws s ws' : jsstring) :
  all_white_space ws -> all_white_space ws' ->
  trim (ws ++ s ++ ws') = trim s.
Proof.
  intros H H'. unfold trim. rewrite trimStart_white_space by assumption.
  destruct (trimStart s) as [|c u] eqn:Hs.
  - pose proof (trimStart_nil s Hs) as Hall.
    rewrite trimStart_white_space by assumption.
    rewrite <- (app_nil_r ws'), trimStart_white_space by assumption.
    reflexivity.
  - rewrite trimStart_app by (rewrite Hs; discriminate).
    rewrite Hs. apply trimEnd_white_space. assumption.
Qed.

(** X1: white space around the response text does not matter: a response
    padded on both sides with white space is classified as the response
    itself, and gives the same number. *)
Theorem recognition_ignores_padding (ws s ws' : jsstring) :
  all_white_space ws -> all_white_space ws' ->
  recognize (Some (ws ++ s ++ ws')) = recognize (Some s).
Proof.
  intros H H'. rewrite !recognize_trimmed.
  rewrite (trim_padding ws s ws' H H'). reflexivity.
Qed.

Lemma digit_not_white_space (c : N) :
  is_digit c = true -> is_white_space c = false.
Proof.
  unfold is_digit, is_white_space. intro H.
  apply andb_true_iff in H as [H1 H2].
  apply N.leb_le in H1, H2.
  repeat match goal with
    | |- context [(?a <=? ?b)%N] => destruct (N.leb_spec a b)
    | |- context [(?a =? ?b)%N] => destruct (N.eqb_spec a b)
    end; try reflexivity; lia.
Qed.

Lemma trimStart_digit (c : N) (s : jsstring) :
  is_digit c = true -> trimStart (c :: s) = c :: s.
Proof.
  intro H. cbn. rewrite (digit_not_white_space c H). reflexivity.
Qed.

Lemma digit_prefix_all (s : jsstring) : all_digits s -> digit_prefix s = s.
Proof.
  induction 1 as [|c s Hc _ IH]; [reflexivity|].
  cbn. rewrite Hc, IH. reflexivity.
Qed.

Lemma trim_digits (s : jsstring) : all_digits s -> trim s = s.
Proof.
  intro H. destruct s as [|c s]; [reflexivity|].
  unfold trim. inversion H as [|? ? Hc Hs]; subst.
  rewrite (trimStart_digit c s Hc). unfold trimEnd.
  assert (Hr : all_digits (rev (c :: s))) by (apply Forall_rev; exact H).
  destruct (rev (c :: s)) as [|d r] eqn:Er.
  - apply (f_equal (@List.length N)) in Er.
    rewrite length_rev in Er. discriminate.
  - inversion Hr as [|? ? Hd _]; subst.
    rewrite (trimStart_digit d r Hd). rewrite <- Er. apply rev_involutive.
Qed.

Lemma digit_value_bounds (c : N) :
  is_digit c = true -> 0 <= digit_value c <= 9.
Proof.
  unfold is_digit, digit_value. intro H.
  apply andb_true_iff in H as [H1 H2]. apply N.leb_le in H1, H2. lia.
Qed.

Lemma fold_digits_bounds (ds : jsstring) :
  all_digits ds ->
  forall acc, 0 <= acc ->
  0 <= fold_left (fun a c => 10 * a + digit_value c) ds acc
    < (acc + 1) * 10 ^ Z.of_nat (List.length ds).
Proof.
  induction 1 as [|c ds Hc _ IH]; intros acc Hacc.
  - cbn. lia.
  - cbn [fold_left List.length]. pose proof (digit_value_bounds c Hc) as Hd.
    specialize (IH (10 * acc + digit_value c) ltac:(lia)).
    rewrite Nat2Z.inj_succ, Z.pow_succ_r by lia.
    assert (0 < 10 ^ Z.of_nat (List.length ds)) by (apply Z.pow_pos_nonneg; lia).
    nia.
Qed.

Lemma parseInt_digits (c : N) (s : jsstring) :
  all_digits (c :: s) -> parseInt (c :: s) = Some (digits_value (c :: s)).
Proof.
  intro H. inversion H as [|? ? Hc Hs]; subst.
  unfold parseInt. rewrite (trimStart_digit c s Hc).
  assert (H48 : (48 <= c)%N).
  { unfold is_digit in Hc. apply andb_true_iff in Hc as [H1 _].
    apply N.leb_le in H1. exact H1. }
  unfold minus_sign, plus_sign.
  destruct (N.eqb_spec c 45); [lia|]. destruct (N.eqb_spec c 43); [lia|].
  cbn [orb]. rewrite (digit_prefix_all (c :: s) H).
  rewrite Z.mul_1_l. reflexivity.
Qed.

(** ** Further properties of the component *)

Section AppProperties.

Variable API_KEY : option jsstring.
Variable JSON_parse : jsstring -> option (list Reading).
Variable JSON_stringify : list Reading -> jsstring.

Local Abbreviation render := (render JSON_stringify).
Local Abbreviation dispatch := (dispatch JSON_stringify).
Local Abbreviation mount := (mount JSON_parse JSON_stringify).
Local Abbreviation handleFileUpload := (handleFileUpload API_KEY).
Local Abbreviation step := (step API_KEY JSON_stringify).
Local Abbreviation run := (run API_KEY JSON_stringify).
Local Abbreviation reachable := (reachable API_KEY JSON_parse JSON_stringify).
Local Abbreviation mirrored := (mirrored JSON_stringify).

Ltac step_inv H :=
  unfold step in H;
  repeat match type of H with
    | context [match nth_error ?l ?i with _ => _ end] =>
        let Hn := fresh "Hnth" in
        destruct (nth_error l i) as [[? ?|?]|] eqn:Hn
    | context [match fileInput ?h with _ => _ end] =>
        destruct (fileInput h) eqn:?
    | context [if ?b then _ else _] => destruct b eqn:?
    end;
  try discriminate H; injection H as <-.

Ltac handler_cases f :=
  try rewrite (handleFileUpload_outcomes API_KEY _ _ f) by reflexivity;
  repeat match goal with
    | |- context [if truthy API_KEY then _ else _] =>
        destruct (truthy API_KEY) eqn:?
    | |- context [if ?b then _ else _] => destruct b eqn:?
    | |- context [generateContent_settled ?res _ _ _] =>
        unfold generateContent_settled; destruct res as [?response|]
    | |- context [match recognize ?r with _ => _ end] =>
        destruct (recognize r) eqn:?
    end.

Lemma mirrored_mount (stored : option jsstring) : mirrored (mount stored).
Proof.
  unfold mirrored, mount, load_effect. cbn [initial_host storage].
  destruct (truthy stored); [destruct stored as [s|];
    [destruct (JSON_parse s)|]|]; reflexivity.
Qed.

Lemma mirrored_step (w w' : World) (e : Event) :
  mirrored w -> step w e = Some w' -> mirrored w'.
Proof.
  unfold mirrored. intros Hm Hstep.
  destruct e; step_inv Hstep; handler_cases f; cbn; auto.
Qed.

Lemma mirrored_reachable (w : World) : reachable w -> mirrored w.
Proof.
  apply reachable_invariant; [apply mirrored_mount|].
  intros w0 e w1. apply mirrored_step.
Qed.

(** X3: in every world the mounted component reaches, the storage slot
    exists and holds the serialization of the current readings: mounting
    writes it, also when the slot was absent or unreadable, and every event
    that changes the readings rewrites it. *)
Theorem persisted_slot_mirrors_the_collection (w : World) :
  reachable w ->
  storage (host w) = Some (JSON_stringify (readings (state w))).
Proof. apply mirrored_reachable. Qed.

(** X4: reloading the page restores the readings: mounting again on the
    slot a reachable world has left gives the same readings and leaves the
    slot as it is, provided [JSON.parse] reads back what [JSON.stringify]
    wrote for this collection (a non-empty text). *)
Theorem restart_restores_the_readings (w : World) :
  reachable w ->
  JSON_stringify (readings (state w)) <> [] ->
  JSON_parse (JSON_stringify (readings (state w)))
    = Some (readings (state w)) ->
  readings (state (mount (storage (host w)))) = readings (state w)
  /\ storage (host (mount (storage (host w)))) = storage (host w).
Proof.
  intros Hreach Hne Hparse. rewrite (mirrored_reachable w Hreach).
  unfold mount, load_effect. cbn [initial_host storage].
  destruct (JSON_stringify (readings (state w))) as [|c t] eqn:Et;
    [contradiction|].
  cbn [truthy]. rewrite Hparse. cbn. rewrite Et. split; reflexivity.
Qed.

(** X5: the readings are append-only: an event leaves the existing readings
    in place and adds at most one after them, unless it is "Yes, Clear" with
    the confirmation dialog open, which empties the collection. *)
Theorem readings_are_append_only (w w' : World) (e : Event) :
  step w e = Some w' ->
  (exists suffix, readings (state w') = readings (state w) ++ suffix
                  /\ (List.length suffix <= 1)%nat)
  \/ (e = ClickYesClear /\ showClearConfirm (state w) = true
      /\ readings (state w') = []).
Proof.
  intro Hstep.
  destruct (step_readings API_KEY JSON_stringify _ _ _ Hstep)
    as [H|[[-> H]|(i & response & v & newId & now & _ & _ & H)]].
  - left. exists []. rewrite app_nil_r. split; [exact H | cbn; lia].
  - right. split; [reflexivity|]. split; [|exact H].
    unfold step in Hstep.
    destruct (showClearConfirm (state w)); [reflexivity | discriminate].
  - left. eexists. split; [exact H | cbn; lia].
Qed.

(** X6: from a world in which nothing is pending and no file is selected,
    with a credential configured, an ingestion whose response is accepted
    runs to its end: the new reading is appended after the existing ones and
    persisted, one request has been issued, no error is shown, and the
    component is idle again with the file input cleared. *)
Theorem ingestion_succeeds_from_idle (w : World) (f : File)
    (result : jsstring) (response : option jsstring) (v : Z)
    (newId now : jsstring) :
  idle w ->
  truthy API_KEY = true ->
  recognize response = RecognitionSuccess v ->
  exists w',
    run w [ClickAddReading; PickerChoose f false; ReaderLoad 0 result;
           Settle 0 (Fulfilled response) newId now] = Some w'
    /\ readings (state w') = readings (state w) ++ [mkReading newId v now]
    /\ storage (host w')
       = Some (JSON_stringify (readings (state w) ++ [mkReading newId v now]))
    /\ idle w'
    /\ errorMsg (state w') = None
    /\ List.length (requests (host w')) = S (List.length (requests (host w))).
Proof.
  intros (Hl & Ht & Hf) Hkey Hr.
  destruct w as [s h]. destruct s, h. cbn in Hl, Ht, Hf. subst.
  destruct API_KEY as [[|c k]|] eqn:Ek; try discriminate Hkey.
  eexists. split.
  - cbn. rewrite Ek. cbn. rewrite Hr. cbn. reflexivity.
  - cbn. unfold idle. cbn. rewrite length_app. cbn.
    repeat split; try reflexivity. lia.
Qed.

(** While an ingestion is pending no error message is shown. *)
Lemma quiet_step (w w' : World) (e : Event) :
  single_flight w ->
  (tasks (host w) <> [] -> errorMsg (state w) = None) ->
  step w e = Some w' ->
  tasks (host w') <> [] -> errorMsg (state w') = None.
Proof.
  intros (Hlen & Hbusy & Hpick) Hq Hstep.
  assert (Hidle : loading (state w) = false -> tasks (host w) = []).
  { intro Hl. destruct (tasks (host w)); [reflexivity|].
    rewrite Hbusy in Hl; discriminate. }
  destruct e; step_inv Hstep; try (cbn; auto; fail).
  - rewrite Hpick in Hidle by reflexivity.
    handler_cases f; cbn; rewrite Hidle by reflexivity; cbn;
      intros; congruence.
  - rewrite Hpick in Hidle by reflexivity.
    handler_cases f; cbn; rewrite Hidle by reflexivity; cbn;
      intros; congruence.
  - cbn. intros _. apply Hq. intro Ht. rewrite Ht in Hnth.
    destruct i; discriminate.
  - destruct (nth_error_single _ _ _ Hlen Hnth) as [Ht ->].
    cbn. rewrite Ht. cbn. contradiction.
  - destruct (nth_error_single _ _ _ Hlen Hnth) as [Ht ->].
    handler_cases sample_file; cbn; rewrite Ht; cbn; contradiction.
Qed.

Lemma quiet_reachable (w : World) :
  reachable w -> tasks (host w) <> [] -> errorMsg (state w) = None.
Proof.
  intro Hreach.
  assert (H : single_flight w
              /\ (tasks (host w) <> [] -> errorMsg (state w) = None)).
  { revert w Hreach. apply reachable_invariant.
    - intro stored. split.
      + apply (single_flight_reachable API_KEY JSON_parse JSON_stringify).
        exists stored, []. reflexivity.
      + destruct (mount_host JSON_parse JSON_stringify stored) as (Ht & _).
        rewrite Ht. contradiction.
    - intros w0 e w1 [Hs Hq] Hstep. split.
      + eapply single_flight_step; eassumption.
      + eapply quiet_step; eassumption. }
  exact (proj2 H).
Qed.

(** X7: in every reachable world, while an ingestion is pending no error
    message is shown (choosing a file clears the earlier one), and when its
    response is accepted none is shown afterwards either. *)
Theorem no_error_message_around_a_success (w : World) :
  reachable w ->
  (tasks (host w) <> [] -> errorMsg (state w) = None)
  /\ (forall i response v newId now w',
        step w (Settle i (Fulfilled response) newId now) = Some w' ->
        recognize response = RecognitionSuccess v ->
        errorMsg (state w') = None).
Proof.
  intro Hreach. split; [apply quiet_reachable; exact Hreach|].
  intros i response v newId now w' Hstep Hr.
  destruct (step_Settle API_KEY JSON_stringify _ _ _ _ _ _ Hstep)
    as [[req Hnth] ->].
  unfold generateContent_settled. rewrite Hr. cbn.
  apply quiet_reachable; [exact Hreach|].
  intro Ht. rewrite Ht in Hnth. destruct i; discriminate.
Qed.

Lemma requests_step (w w' : World) (e : Event) :
  step w e = Some w' ->
  List.length (requests (host w'))
  = (List.length (requests (host w))
     + if is_ReaderLoad e then 1 else 0)%nat.
Proof.
  intro Hstep.
  destruct e; cbn [is_ReaderLoad]; step_inv Hstep; handler_cases f; cbn;
    rewrite ?length_app; cbn; lia.
Qed.

Lemma requests_run (es : list Event) (w w' : World) :
  run w es = Some w' ->
  List.length (requests (host w'))
  = (List.length (requests (host w))
     + List.length (filter is_ReaderLoad es))%nat.
Proof.
  revert w. induction es as [|e es IH]; intros w Hrun.
  - injection Hrun as <-. cbn. lia.
  - cbn in Hrun. destruct (step w e) as [w1|] eqn:He; [|discriminate].
    rewrite (IH w1 Hrun), (requests_step w w1 e He).
    cbn [filter]. destruct (is_ReaderLoad e); cbn; lia.
Qed.

(** X8: no retry and no request without a file: along every execution the
    recognition requests issued so far are as many as the files whose read
    has completed; a failed or rejected recognition issues no further
    request. *)
Theorem one_request_per_loaded_file (stored : option jsstring)
    (es : list Event) (w : World) :
  run (mount stored) es = Some w ->
  List.length (requests (host w)) = List.length (filter is_ReaderLoad es).
Proof.
  intro Hrun. rewrite (requests_run es _ _ Hrun).
  destruct (mount_host JSON_parse JSON_stringify stored) as (_ & _ & Hr & _).
  rewrite Hr. reflexivity.
Qed.

End AppProperties.

Lemma split_on_no_separator (sep : N) (s : jsstring) :
  ~ In sep s -> split_on sep s = [s].
Proof.
  induction s as [|c s IH]; intro Hn; [reflexivity|].
  cbn. destruct (N.eqb_spec c sep) as [->|Hc].
  - exfalso. apply Hn. left; reflexivity.
  - rewrite IH by (intro H; apply Hn; right; exact H). reflexivity.
Qed.

Lemma split_on_first (sep : N) (prefix rest : jsstring) :
  ~ In sep prefix ->
  split_on sep (prefix ++ sep :: rest) = prefix :: split_on sep rest.
Proof.
  induction prefix as [|c p IH]; intro Hn.
  - cbn. rewrite N.eqb_refl. reflexivity.
  - cbn. destruct (N.eqb_spec c sep) as [->|Hc].
    + exfalso. apply Hn. left; reflexivity.
    + rewrite IH by (intro H; apply Hn; right; exact H). reflexivity.
Qed.

(** X9: the request built when the file has been read carries the key and
    the MIME type of the file, and as data the part of the reader's result
    after its first comma, which is the base64 text of a data URL; for a
    result without a comma the data is undefined and the request is issued
    all the same. *)
Theorem request_carries_the_payload (i : nat) (file : File) (apiKey : jsstring)
    (h : Host) (prefix payload result : jsstring) :
  ~ In comma prefix -> ~ In comma payload -> ~ In comma result ->
  requests (reader_onload i file apiKey (prefix ++ comma :: payload) h)
    = requests h ++ [mkRequest apiKey (file_type file) (Some payload)]
  /\ requests (reader_onload i file apiKey result h)
     = requests h ++ [mkRequest apiKey (file_type file) None].
Proof.
  intros Hp Hq Hr. unfold reader_onload. cbn.
  rewrite (split_on_first comma prefix payload Hp).
  rewrite (split_on_no_separator comma payload Hq).
  rewrite (split_on_no_separator comma result Hr). split; reflexivity.
Qed.

(** ** Further properties of the derived view *)

Section ProjectionProperties.

Variable Date_getTime : jsstring -> option Z.

Local Abbreviation sorts_after := (sorts_after Date_getTime).
Local Abbreviation sort_insert := (sort_insert Date_getTime).
Local Abbreviation Array_sort := (Array_sort Date_getTime).
Local Abbreviation sortedReadings := (sortedReadings Date_getTime).
Local Abbreviation initialReading := (initialReading Date_getTime).
Local Abbreviation displayReadings := (displayReadings Date_getTime).
Local Abbreviation valid_date := (valid_date Date_getTime).
Local Abbreviation date_le := (date_le Date_getTime).
Local Abbreviation distinct_times := (distinct_times Date_getTime).
Local Abbreviation ascending_values := (ascending_values Date_getTime).

Lemma date_le_not_after (x y : Reading) :
  date_le x y -> sorts_after x y = false.
Proof.
  unfold date_le, sorts_after, compareFn.
  destruct (Date_getTime (date x)) as [tx|]; [|contradiction].
  destruct (Date_getTime (date y)) as [ty|]; [|contradiction].
  intro H. apply Z.ltb_ge. lia.
Qed.

Lemma sort_insert_before (x : Reading) (l : list Reading) :
  Forall (date_le x) l -> sort_insert x l = x :: l.
Proof.
  destruct 1 as [|y l Hy _]; [reflexivity|].
  cbn. rewrite (date_le_not_after x y Hy). reflexivity.
Qed.

Lemma Array_sort_sorted_input (l : list Reading) :
  StronglySorted date_le l -> Array_sort l = l.
Proof.
  induction 1 as [|x l Hs IH Hx]; [reflexivity|].
  unfold Array_sort in *. cbn [fold_right]. rewrite IH.
  apply sort_insert_before. exact Hx.
Qed.

(** X10: sorting is idempotent on collections whose dates parse: the sorted
    readings, sorted again, stay as they are; and a collection already in
    ascending date order is shown in the order it is stored. *)
Theorem sorting_is_idempotent (rs : list Reading) :
  Forall valid_date rs ->
  sortedReadings (sortedReadings rs) = sortedReadings rs
  /\ (StronglySorted date_le rs -> sortedReadings rs = rs).
Proof.
  intro Hv. split.
  - apply Array_sort_sorted_input.
    apply (Array_sort_sorted Date_getTime). exact Hv.
  - apply Array_sort_sorted_input.
Qed.

Lemma sort_insert_app_last (x r : Reading) (l : list Reading) :
  sorts_after x r = false ->
  sort_insert x (l ++ [r]) = sort_insert x l ++ [r].
Proof.
  intro Hx. induction l as [|y l IH].
  - cbn. rewrite Hx. reflexivity.
  - cbn. destruct (sorts_after x y); [|reflexivity].
    rewrite IH. reflexivity.
Qed.

Lemma Array_sort_app_last (rs : list Reading) (r : Reading) :
  Forall (fun x => date_le x r) rs ->
  Array_sort (rs ++ [r]) = Array_sort rs ++ [r].
Proof.
  induction 1 as [|x rs Hx _ IH]; [reflexivity|].
  unfold Array_sort in *. cbn [app fold_right]. rewrite IH.
  apply sort_insert_app_last. apply date_le_not_after. exact Hx.
Qed.

(** X11: a reading stamped no earlier than the readings of a non-empty
    collection, as a new reading is, comes last in the view and changes no
    other row: the rows of the collection stay as they were, in both modes,
    and the row of the new reading follows them. *)
Theorem later_reading_is_shown_last (rs : list Reading) (r : Reading)
    (zero : bool) :
  rs <> [] ->
  Forall (fun x => date_le x r) rs ->
  sortedReadings (rs ++ [r]) = sortedReadings rs ++ [r]
  /\ initialReading (rs ++ [r]) = initialReading rs
  /\ displayReadings (rs ++ [r]) zero
     = displayReadings rs zero
       ++ [mkDisplayReading (id r) (value r) (date r)
             (if zero then value r - initialReading rs else value r)].
Proof.
  intros Hne Hle.
  assert (Hs : sortedReadings (rs ++ [r]) = sortedReadings rs ++ [r])
    by (apply Array_sort_app_last; exact Hle).
  assert (Hi : initialReading (rs ++ [r]) = initialReading rs).
  { unfold initialReading. rewrite Hs.
    destruct (sortedReadings rs) as [|first rest] eqn:Es; [|reflexivity].
    exfalso. apply Hne. apply Permutation_nil. rewrite <- Es. symmetry.
    apply (Array_sort_perm Date_getTime). }
  split; [exact Hs|]. split; [exact Hi|].
  unfold displayReadings. rewrite Hi.
  unfold sortedReadings in Hs. unfold sortedReadings. rewrite Hs.
  rewrite map_app. reflexivity.
Qed.

Lemma date_le_same_time (a b : Reading) :
  date_le a b -> date_le b a ->
  Date_getTime (date a) = Date_getTime (date b).
Proof.
  unfold date_le.
  destruct (Date_getTime (date a)), (Date_getTime (date b));
    try contradiction. intros. f_equal. lia.
Qed.

(** A list sorted by timestamp whose timestamps are distinct is determined
    by its elements. *)
Lemma sorted_distinct_unique (l1 : list Reading) :
  forall l2,
  StronglySorted date_le l1 -> StronglySorted date_le l2 ->
  Permutation l1 l2 -> distinct_times l1 -> l1 = l2.
Proof.
  induction l1 as [|a l1 IH]; intros l2 Hs1 Hs2 Hp Hd.
  - apply Permutation_nil in Hp. subst. reflexivity.
  - destruct l2 as [|b l2].
    + symmetry in Hp. apply Permutation_nil in Hp. discriminate.
    + inversion Hs1 as [|? ? Hs1' Ha]; subst.
      inversion Hs2 as [|? ? Hs2' Hb]; subst.
      unfold distinct_times in Hd. cbn [map] in Hd.
      apply NoDup_cons_iff in Hd as [Hna Hd'].
      assert (Hab : a = b).
      { assert (Hin_a : In a (b :: l2))
          by (apply (Permutation_in _ Hp); left; reflexivity).
        assert (Hin_b : In b (a :: l1))
          by (apply (Permutation_in _ (Permutation_sym Hp)); left; reflexivity).
        destruct Hin_a as [->|Hin_a]; [reflexivity|].
        destruct Hin_b as [->|Hin_b]; [reflexivity|].
        exfalso. apply Hna.
        rewrite (date_le_same_time a b).
        - apply (in_map (fun r => Date_getTime (date r))). exact Hin_b.
        - apply (proj1 (Forall_forall _ _) Ha). exact Hin_b.
        - apply (proj1 (Forall_forall _ _) Hb). exact Hin_a. }
      subst b. f_equal.
      apply IH; try assumption.
      apply (Permutation_cons_inv Hp).
Qed.

(** X12: when the dates parse and no two readings share a timestamp, the
    view does not depend on the order in which the collection is stored:
    two collections with the same readings are shown alike, in both
    modes. *)
Theorem view_ignores_the_stored_order (rs1 rs2 : list Reading) (zero : bool) :
  Permutation rs1 rs2 ->
  Forall valid_date rs1 ->
  distinct_times rs1 ->
  sortedReadings rs1 = sortedReadings rs2
  /\ displayReadings rs1 zero = displayReadings rs2 zero.
Proof.
  intros Hp Hv Hd.
  assert (Hs : sortedReadings rs1 = sortedReadings rs2).
  { apply sorted_distinct_unique.
    - apply (Array_sort_sorted Date_getTime). exact Hv.
    - apply (Array_sort_sorted Date_getTime).
      apply (Permutation_Forall Hp). exact Hv.
    - rewrite <- (Array_sort_perm Date_getTime rs1).
      rewrite <- (Array_sort_perm Date_getTime rs2). exact Hp.
    - unfold distinct_times in *.
      apply (Permutation_NoDup
               (Permutation_map _ (Array_sort_perm Date_getTime rs1))).
      exact Hd. }
  split; [exact Hs|].
  unfold displayReadings, initialReading. rewrite Hs. reflexivity.
Qed.

Lemma first_sorted_is_earliest (rs : list Reading) (first : Reading)
    (rest : list Reading) :
  Forall valid_date rs ->
  sortedReadings rs = first :: rest ->
  In first rs /\ forall r, In r rs -> date_le first r.
Proof.
  intros Hv Hs.
  assert (Hperm : Permutation rs (first :: rest))
    by (rewrite <- Hs; apply (Array_sort_perm Date_getTime)).
  assert (Hin : In first rs)
    by (apply (Permutation_in _ (Permutation_sym Hperm)); left; reflexivity).
  split; [exact Hin|]. intros r Hr.
  pose proof (Array_sort_sorted Date_getTime rs Hv) as Hsorted.
  unfold sortedReadings in Hs. rewrite Hs in Hsorted.
  inversion Hsorted as [|? ? _ Hall]; subst.
  apply (Permutation_in _ Hperm) in Hr as [<-|Hr].
  - apply (date_le_refl Date_getTime).
    apply (proj1 (Forall_forall _ _) Hv). exact Hin.
  - apply (proj1 (Forall_forall _ _) Hall). exact Hr.
Qed.

(** X13: when the dates parse and the values never decrease with time, as
    the readings of one odometer do, no row of the zero-based view is
    negative. *)
Theorem distances_are_not_negative (rs : list Reading) (d : DisplayReading) :
  Forall valid_date rs ->
  ascending_values rs ->
  In d (displayReadings rs true) ->
  0 <= displayValue d.
Proof.
  intros Hv Hasc Hd. unfold displayReadings in Hd.
  apply in_map_iff in Hd as (r & <- & Hr). cbn.
  destruct (sortedReadings rs) as [|first rest] eqn:Es; [contradiction|].
  destruct (first_sorted_is_earliest rs first rest Hv Es) as [Hin Hmin].
  assert (Hr' : In r rs).
  { apply (Permutation_in _
             (Permutation_sym (Array_sort_perm Date_getTime rs))).
    unfold sortedReadings in Es. rewrite Es. exact Hr. }
  unfold initialReading. rewrite Es.
  pose proof (Hasc first r Hin Hr' (Hmin r Hr')). lia.
Qed.

(** X14: the view drops and repeats no reading, whatever the dates are: in
    both modes its rows are, up to their order, the readings of the
    collection, one row for each. *)
Theorem view_keeps_every_reading (rs : list Reading) (zero : bool) :
  Permutation rs (map reading_of (displayReadings rs zero))
  /\ List.length (displayReadings rs zero) = List.length rs.
Proof.
  split.
  - rewrite (reading_of_display Date_getTime).
    apply (Array_sort_perm Date_getTime).
  - unfold displayReadings. rewrite length_map.
    symmetry. apply Permutation_length.
    apply (Array_sort_perm Date_getTime).
Qed.

End ProjectionProperties.

(** ** The chart effect *)

Lemma mark_destroyed_all (i : nat) (l : list ChartInstance) :
  all_destroyed l -> all_destroyed (mark_destroyed i l).
Proof.
  intro H. revert i. induction H as [|ch l Hch Hl IH]; intros [|i]; cbn.
  - constructor.
  - constructor.
  - apply Forall_cons; [reflexivity | exact Hl].
  - apply Forall_cons; [exact Hch | apply IH].
Qed.

Lemma mark_destroyed_last (l : list ChartInstance) (ch : ChartInstance) :
  mark_destroyed (List.length l) (l ++ [ch])
  = l ++ [mkChart (config ch) true].
Proof.
  induction l as [|x l IH]; cbn; [reflexivity|]. rewrite IH. reflexivity.
Qed.

Lemma live_charts_none (c : ChartHost) :
  all_destroyed (charts c) -> live_charts c = [].
Proof.
  unfold live_charts. intro H. induction H as [|ch l Hch _ IH];
    [reflexivity|]. cbn. rewrite Hch. cbn. exact IH.
Qed.

Lemma destroy_current_all (c : ChartHost) :
  one_chart_at_most c -> all_destroyed (charts (destroy_current c)).
Proof.
  intros [H|(l & cfg & Hc & Hl & Hi)]; unfold destroy_current.
  - destruct (chartInstance c); cbn; [apply mark_destroyed_all|]; exact H.
  - rewrite Hi. cbn. rewrite Hc, mark_destroyed_last. cbn.
    apply Forall_app. split; [exact Hl|]. repeat constructor.
Qed.

Lemma destroy_current_again (c : ChartHost) :
  all_destroyed (charts c) -> all_destroyed (charts (destroy_current c)).
Proof. intro H. apply destroy_current_all. left; exact H. Qed.

Section ChartProperties.

Variable Date_getTime : jsstring -> option Z.
Variable formatDate : jsstring -> jsstring.

Local Abbreviation chartRef := (chartRef Date_getTime).
Local Abbreviation chart_config := (chart_config Date_getTime formatDate).
Local Abbreviation chart_effect := (chart_effect Date_getTime formatDate).
Local Abbreviation commit := (commit Date_getTime formatDate).
Local Abbreviation commits := (commits Date_getTime formatDate).

Lemma commit_live (c : ChartHost) (s : State) (getContext : bool) :
  one_chart_at_most c ->
  one_chart_at_most (commit c (s, getContext))
  /\ live_charts (commit c (s, getContext))
     = if is_chart (view s) && chartRef s && getContext
       then [chart_config s] else [].
Proof.
  intro Hc. unfold commit, chart_effect, chart_cleanup. cbn [fst snd].
  pose proof (destroy_current_all c Hc) as H1.
  pose proof (destroy_current_again _ H1) as H2.
  destruct (is_chart (view s) && chartRef s); cbn [andb].
  - destruct getContext.
    + split.
      * right. exists (charts (destroy_current (destroy_current c))).
        exists (chart_config s).
        split; [reflexivity | split; [exact H2 | reflexivity]].
      * unfold live_charts, new_Chart. cbn [charts].
        rewrite filter_app, map_app.
        change (map config (filter (fun ch => negb (destroyed ch))
                  (charts (destroy_current (destroy_current c)))))
          with (live_charts (destroy_current (destroy_current c))).
        rewrite (live_charts_none _ H2). reflexivity.
    + split; [left; exact H2 | apply live_charts_none; exact H2].
  - split; [left; exact H1 | apply live_charts_none; exact H1].
Qed.

Lemma commits_one_chart (rs : list (State * bool)) :
  one_chart_at_most (commits rs).
Proof.
  unfold commits.
  assert (H : one_chart_at_most no_charts) by (left; constructor).
  revert H. generalize no_charts.
  induction rs as [|[s g] rs IH]; intros c Hc; [exact Hc|].
  cbn [fold_left]. apply IH. apply commit_live. exact Hc.
Qed.

(** X15: after any sequence of renders, the charts not yet destroyed are
    determined by the last render alone: there is exactly one, built from
    the rows of that render (their formatted dates as labels, their display
    values as data, the dataset label of the mode), when it shows the chart
    view with at least one reading and the canvas gave a context, and there
    is none otherwise; at no time is more than one chart alive. *)
Theorem one_live_chart_of_the_last_render (rs : list (State * bool))
    (s : State) (getContext : bool) :
  live_charts (commits (rs ++ [(s, getContext)]))
  = (if is_chart (view s) && chartRef s && getContext
     then [chart_config s] else [])
  /\ (List.length (live_charts (commits rs)) <= 1)%nat.
Proof.
  split.
  - unfold commits. rewrite fold_left_app. cbn [fold_left].
    apply commit_live. apply commits_one_chart.
  - destruct (commits_one_chart rs) as [H|(l & cfg & Hc & Hl & _)].
    + rewrite (live_charts_none _ H). cbn. lia.
    + unfold live_charts. rewrite Hc, filter_app, map_app.
      change (map config (filter (fun ch => negb (destroyed ch)) l))
        with (live_charts (mkChartHost l None)).
      rewrite (live_charts_none (mkChartHost l None) Hl). cbn. lia.
Qed.

End ChartProperties.

(** ** Instances of the further conditional statements *)

Lemma recognition_ignores_padding_witness :
  all_white_space (str " ") /\ all_white_space [10%N]
  /\ recognize (Some (str " " ++ str "123456" ++ [10%N]))
     = recognize (Some (str "123456")).
Proof.
  assert (H1 : all_white_space (str " ")) by (repeat constructor).
  assert (H2 : all_white_space [10%N]) by (repeat constructor).
  split; [exact H1|]. split; [exact H2|].
  exact (recognition_ignores_padding (str " ") (str "123456") [10%N] H1 H2).
Defined.

Lemma ingested_world_reachable :
  reachable sample_key sample_parse sample_stringify ingested_world.
Proof.
  exists None, (ingestion (str "045213") (str "abc") day1). reflexivity.
Qed.

Lemma recognizing_world_reachable :
  reachable sample_key sample_parse sample_stringify recognizing_world.
Proof.
  exists None, [ClickAddReading; PickerChoose sample_file false;
                ReaderLoad 0 sample_dataURL]. reflexivity.
Qed.

Lemma persisted_slot_witness :
  reachable sample_key sample_parse sample_stringify ingested_world
  /\ storage (host ingested_world)
     = Some (sample_stringify (readings (state ingested_world))).
Proof.
  split; [exact ingested_world_reachable|].
  exact (persisted_slot_mirrors_the_collection sample_key sample_parse
           sample_stringify ingested_world ingested_world_reachable).
Defined.

Lemma restart_witness :
  reachable sample_key sample_parse_back sample_stringify ingested_world
  /\ sample_stringify (readings (state ingested_world)) <> []
  /\ sample_parse_back (sample_stringify (readings (state ingested_world)))
     = Some (readings (state ingested_world))
  /\ readings (state (mount sample_parse_back sample_stringify
                        (storage (host ingested_world))))
     = [stored_reading].
Proof.
  assert (H1 : reachable sample_key sample_parse_back sample_stringify
                 ingested_world).
  { exists None, (ingestion (str "045213") (str "abc") day1). reflexivity. }
  assert (H2 : sample_stringify (readings (state ingested_world)) <> [])
    by (vm_compute; discriminate).
  assert (H3 : sample_parse_back
                 (sample_stringify (readings (state ingested_world)))
               = Some (readings (state ingested_world)))
    by (vm_compute; reflexivity).
  split; [exact H1|]. split; [exact H2|]. split; [exact H3|].
  exact (proj1 (restart_restores_the_readings sample_key sample_parse_back
                  sample_stringify ingested_world H1 H2 H3)).
Defined.

Lemma readings_are_append_only_witness :
  let e := Settle 0 (Fulfilled (Some (str "045213"))) (str "abc") day1 in
  sample_step recognizing_world e = Some ingested_world
  /\ ((exists suffix,
         readings (state ingested_world)
         = readings (state recognizing_world) ++ suffix
         /\ (List.length suffix <= 1)%nat)
      \/ (e = ClickYesClear
          /\ showClearConfirm (state recognizing_world) = true
          /\ readings (state ingested_world) = [])).
Proof.
  intro e.
  assert (H : sample_step recognizing_world e = Some ingested_world)
    by reflexivity.
  split; [exact H|].
  exact (readings_are_append_only sample_key sample_stringify
           recognizing_world ingested_world e H).
Defined.

Lemma ingestion_succeeds_witness :
  idle (sample_mount None)
  /\ truthy sample_key = true
  /\ recognize (Some (str "045213")) = RecognitionSuccess 45213
  /\ exists w',
       sample_run (sample_mount None)
         [ClickAddReading; PickerChoose sample_file false;
          ReaderLoad 0 sample_dataURL;
          Settle 0 (Fulfilled (Some (str "045213"))) (str "abc") day1]
       = Some w'
       /\ readings (state w') = [stored_reading].
Proof.
  assert (H1 : idle (sample_mount None)) by (repeat split).
  assert (H2 : truthy sample_key = true) by reflexivity.
  assert (H3 : recognize (Some (str "045213")) = RecognitionSuccess 45213)
    by reflexivity.
  split; [exact H1|]. split; [exact H2|]. split; [exact H3|].
  destruct (ingestion_succeeds_from_idle sample_key sample_stringify
              (sample_mount None) sample_file sample_dataURL
              (Some (str "045213")) 45213 (str "abc") day1 H1 H2 H3)
    as (w' & Hrun & Hread & _).
  exists w'. split; [exact Hrun | exact Hread].
Defined.

Lemma no_error_message_witness :
  reachable sample_key sample_parse sample_stringify recognizing_world
  /\ tasks (host recognizing_world) <> []
  /\ errorMsg (state recognizing_world) = None.
Proof.
  assert (H : tasks (host recognizing_world) <> [])
    by (vm_compute; discriminate).
  split; [exact recognizing_world_reachable|]. split; [exact H|].
  exact (proj1 (no_error_message_around_a_success sample_key sample_parse
                  sample_stringify recognizing_world
                  recognizing_world_reachable) H).
Defined.

Lemma one_request_witness :
  let es := ingestion (str "-1") (str "abc") day1 in
  sample_run (sample_mount None) es = Some (world_after es)
  /\ List.length (requests (host (world_after es)))
     = List.length (filter is_ReaderLoad es).
Proof.
  intro es.
  assert (H : sample_run (sample_mount None) es = Some (world_after es))
    by reflexivity.
  split; [exact H|].
  exact (one_request_per_loaded_file sample_key sample_parse sample_stringify
           None es (world_after es) H).
Defined.

Lemma no_comma (s : jsstring) :
  forallb (fun c => negb (c =? comma)%N) s = true -> ~ In comma s.
Proof.
  intros H Hin. rewrite forallb_forall in H. specialize (H comma Hin).
  rewrite N.eqb_refl in H. discriminate.
Qed.

Lemma request_carries_the_payload_witness :
  ~ In comma data_url_prefix /\ ~ In comma data_url_payload
  /\ ~ In comma (str "blob")
  /\ requests (reader_onload 0 sample_file (str "k")
                 (data_url_prefix ++ comma :: data_url_payload)
                 (host recognizing_world))
     = requests (host recognizing_world)
       ++ [mkRequest (str "k") (file_type sample_file)
             (Some data_url_payload)].
Proof.
  assert (H1 : ~ In comma data_url_prefix) by (apply no_comma; reflexivity).
  assert (H2 : ~ In comma data_url_payload) by (apply no_comma; reflexivity).
  assert (H3 : ~ In comma (str "blob")) by (apply no_comma; reflexivity).
  split; [exact H1|]. split; [exact H2|]. split; [exact H3|].
  exact (proj1 (request_carries_the_payload 0 sample_file (str "k")
                  (host recognizing_world) data_url_prefix data_url_payload
                  (str "blob") H1 H2 H3)).
Defined.

Lemma sorting_is_idempotent_witness :
  Forall (valid_date sample_getTime) sample_readings
  /\ sortedReadings sample_getTime
       (sortedReadings sample_getTime sample_readings)
     = sortedReadings sample_getTime sample_readings.
Proof.
  split; [exact sample_readings_valid|].
  exact (proj1 (sorting_is_idempotent sample_getTime sample_readings
                  sample_readings_valid)).
Defined.

Lemma later_reading_witness :
  [stored_reading] <> []
  /\ Forall (fun x => date_le sample_getTime x later_reading) [stored_reading]
  /\ sortedReadings sample_getTime ([stored_reading] ++ [later_reading])
     = sortedReadings sample_getTime [stored_reading] ++ [later_reading].
Proof.
  assert (H1 : [stored_reading] <> []) by discriminate.
  assert (H2 : Forall (fun x => date_le sample_getTime x later_reading)
                 [stored_reading]).
  { repeat constructor. vm_compute. discriminate. }
  split; [exact H1|]. split; [exact H2|].
  exact (proj1 (later_reading_is_shown_last sample_getTime [stored_reading]
                  later_reading true H1 H2)).
Defined.

Lemma sample_readings_distinct : distinct_times sample_getTime sample_readings.
Proof.
  unfold distinct_times. vm_compute.
  repeat constructor; cbn; intuition discriminate.
Qed.

Lemma view_ignores_the_stored_order_witness :
  Permutation sample_readings (rev sample_readings)
  /\ Forall (valid_date sample_getTime) sample_readings
  /\ distinct_times sample_getTime sample_readings
  /\ displayReadings sample_getTime sample_readings true
     = displayReadings sample_getTime (rev sample_readings) true.
Proof.
  assert (H1 : Permutation sample_readings (rev sample_readings))
    by apply Permutation_rev.
  split; [exact H1|]. split; [exact sample_readings_valid|].
  split; [exact sample_readings_distinct|].
  exact (proj2 (view_ignores_the_stored_order sample_getTime sample_readings
                  (rev sample_readings) true H1 sample_readings_valid
                  sample_readings_distinct)).
Defined.

Lemma sample_readings_ascending : ascending_values sample_getTime sample_readings.
Proof.
  intros a b [<-|[<-|[]]] [<-|[<-|[]]] H; cbn; try lia.
  exfalso. vm_compute in H. apply H. reflexivity.
Qed.

Lemma distances_are_not_negative_witness :
  let d := mkDisplayReading (str "b") 45300 day2 87 in
  Forall (valid_date sample_getTime) sample_readings
  /\ ascending_values sample_getTime sample_readings
  /\ In d (displayReadings sample_getTime sample_readings true)
  /\ 0 <= displayValue d.
Proof.
  intro d.
  assert (H : In d (displayReadings sample_getTime sample_readings true))
    by (vm_compute; right; left; reflexivity).
  split; [exact sample_readings_valid|].
  split; [exact sample_readings_ascending|]. split; [exact H|].
  exact (distances_are_not_negative sample_getTime sample_readings d
           sample_readings_valid sample_readings_ascending H).
Defined.

Lemma no_credential_witness :
  truthy None = false
  /\ reachable None sample_parse sample_stringify no_key_world
  /\ tasks (host no_key_world) = [] /\ requests (host no_key_world) = [].
Proof.
  assert (H : reachable None sample_parse sample_stringify no_key_world).
  { exists None, [ClickAddReading; PickerChoose sample_file false].
    reflexivity. }
  split; [reflexivity|]. split; [exact H|].
  exact (no_credential_no_request None sample_parse sample_stringify
           no_key_world eq_refl H).
Defined.

Lemma settling_returns_to_idle_witness :
  let e := Settle 0 Rejected (str "abc") day1 in
  let w' := world_after [ClickAddReading; PickerChoose sample_file false;
                         ReaderLoad 0 sample_dataURL; e] in
  sample_step recognizing_world e = Some w'
  /\ loading (state w') = false /\ fileInput (host w') = None.
Proof.
  intros e w'.
  assert (H : sample_step recognizing_world e = Some w') by reflexivity.
  split; [exact H|].
  exact (settling_returns_to_idle sample_key sample_stringify
           recognizing_world w' 0 Rejected (str "abc") day1 H).
Defined.

(** ** How the commands compose *)

Section InteractionProperties.

Variable API_KEY : option jsstring.
Variable JSON_parse : jsstring -> option (list Reading).
Variable JSON_stringify : list Reading -> jsstring.

Local Abbreviation step := (step API_KEY JSON_stringify).
Local Abbreviation run := (run API_KEY JSON_stringify).
Local Abbreviation reachable := (reachable API_KEY JSON_parse JSON_stringify).

(** X18: Clear-All does not cancel a pending recognition: when the
    collection is cleared while a call is awaited and the response is then
    accepted, the new reading is appended to the emptied collection and
    persisted. *)
Theorem clear_all_does_not_cancel (w : World) (i : nat) (req : Request)
    (response : option jsstring) (v : Z) (newId now : jsstring) :
  nth_error (tasks (host w)) i = Some (Recognizing req) ->
  recognize response = RecognitionSuccess v ->
  exists w',
    run w [ClickClearAll; ClickYesClear;
           Settle i (Fulfilled response) newId now] = Some w'
    /\ readings (state w') = [mkReading newId v now]
    /\ storage (host w') = Some (JSON_stringify [mkReading newId v now]).
Proof.
  intros Hnth Hr. destruct w as [s h]. destruct s, h. cbn in Hnth.
  eexists. split.
  - cbn. rewrite Hnth. cbn. rewrite Hr. cbn. reflexivity.
  - cbn. split; reflexivity.
Qed.

(** X19: opening the confirmation dialog and cancelling it, and switching
    the zero-based mode on and off again, both bring the component back to
    the world it was in: nothing is deleted or rewritten. *)
Theorem cancel_and_double_toggle_restore (w : World) :
  showClearConfirm (state w) = false ->
  run w [ClickClearAll; ClickCancel] = Some w
  /\ run w [ToggleZeroReadings; ToggleZeroReadings] = Some w.
Proof.
  intro H. destruct w as [s h]. destruct s, h. cbn in H. subst.
  cbn. rewrite negb_involutive. split; reflexivity.
Qed.

Lemma settled_world_is_idle (w w' : World) (i : nat) (res : Settlement)
    (newId now : jsstring) :
  reachable w ->
  step w (Settle i res newId now) = Some w' ->
  idle w'.
Proof.
  intros Hreach Hstep.
  destruct (single_flight_reachable API_KEY JSON_parse JSON_stringify w Hreach)
    as (Hlen & _ & _).
  destruct (step_Settle API_KEY JSON_stringify _ _ _ _ _ _ Hstep)
    as [[req Hnth] ->].
  destruct (nth_error_single _ _ _ Hlen Hnth) as [Ht ->].
  unfold idle, generateContent_settled.
  destruct res as [response|]; [destruct (recognize response)|];
    cbn; rewrite Ht; repeat split; reflexivity.
Qed.

(** X20: once a recognition call has settled, with a reading, a failure or
    an exception, any file, the same one included, can be chosen again and
    starts a new ingestion (credential configured): the button is enabled,
    the input fires [onChange], no error is shown and one read is pending. *)
Theorem settled_ingestion_can_be_repeated (w w1 : World) (i : nat)
    (res : Settlement) (newId now : jsstring) (f : File) :
  reachable w ->
  truthy API_KEY = true ->
  step w (Settle i res newId now) = Some w1 ->
  exists w2 k,
    run w1 [ClickAddReading; PickerChoose f false] = Some w2
    /\ API_KEY = Some k
    /\ tasks (host w2) = [ReadingFile f k]
    /\ loading (state w2) = true
    /\ errorMsg (state w2) = None
    /\ readings (state w2) = readings (state w1).
Proof.
  intros Hreach Hkey Hstep.
  destruct (settled_world_is_idle w w1 i res newId now Hreach Hstep)
    as (Hl & Ht & Hf).
  destruct w1 as [s h]. destruct s, h. cbn in Hl, Ht, Hf. subst.
  destruct API_KEY as [[|c k]|] eqn:Ek; try discriminate Hkey.
  eexists. exists (c :: k). split.
  - cbn. rewrite Ek. cbn. reflexivity.
  - cbn. repeat split; reflexivity.
Qed.

End InteractionProperties.

Lemma clear_all_does_not_cancel_witness :
  nth_error (tasks (host recognizing_world)) 0
  = Some (Recognizing (mkRequest (str "k") (str "image/jpeg")
                         (Some (str "AAAA"))))
  /\ recognize (Some (str "045213")) = RecognitionSuccess 45213
  /\ exists w',
       sample_run recognizing_world
         [ClickClearAll; ClickYesClear;
          Settle 0 (Fulfilled (Some (str "045213"))) (str "abc") day1]
       = Some w'
       /\ readings (state w') = [stored_reading].
Proof.
  assert (H1 : nth_error (tasks (host recognizing_world)) 0
               = Some (Recognizing (mkRequest (str "k") (str "image/jpeg")
                                      (Some (str "AAAA")))))
    by reflexivity.
  assert (H2 : recognize (Some (str "045213")) = RecognitionSuccess 45213)
    by reflexivity.
  split; [exact H1|]. split; [exact H2|].
  destruct (clear_all_does_not_cancel sample_key sample_stringify
              recognizing_world 0 _ (Some (str "045213")) 45213
              (str "abc") day1 H1 H2) as (w' & Hrun & Hread & _).
  exists w'. split; [exact Hrun | exact Hread].
Defined.

Lemma cancel_and_double_toggle_witness :
  showClearConfirm (state ingested_world) = false
  /\ sample_run ingested_world [ClickClearAll; ClickCancel]
     = Some ingested_world.
Proof.
  split; [reflexivity|].
  exact (proj1 (cancel_and_double_toggle_restore sample_key sample_stringify
                  ingested_world eq_refl)).
Defined.

Lemma settled_ingestion_can_be_repeated_witness :
  let e := Settle 0 (Fulfilled (Some (str "-1"))) (str "abc") day1 in
  let w1 := world_after (ingestion (str "-1") (str "abc") day1) in
  reachable sample_key sample_parse sample_stringify recognizing_world
  /\ truthy sample_key = true
  /\ sample_step recognizing_world e = Some w1
  /\ exists w2 k,
       sample_run w1 [ClickAddReading; PickerChoose sample_file false]
       = Some w2
       /\ tasks (host w2) = [ReadingFile sample_file k].
Proof.
  intros e w1.
  assert (H : sample_step recognizing_world e = Some w1) by reflexivity.
  split; [exact recognizing_world_reachable|]. split; [reflexivity|].
  split; [exact H|].
  destruct (settled_ingestion_can_be_repeated sample_key sample_parse
              sample_stringify recognizing_world w1 0 _ (str "abc") day1
              sample_file recognizing_world_reachable eq_refl H)
    as (w2 & k & Hrun & _ & Ht & _).
  exists w2, k. split; [exact Hrun | exact Ht].
Defined.

(** ** The numbers of the engine *)

Lemma sgn_mul_abs (z : Z) : Z.sgn z * Z.abs z = z.
Proof. destruct z; reflexivity. Qed.

(** Up to 2^53 in magnitude an integer is its own Number value. *)
Lemma to_double_exact (z : Z) : Z.abs z <= 2 ^ 53 -> to_double z = JsInt z.
Proof.
  intro H. destruct (Z.eq_dec (Z.abs z) (2 ^ 53)) as [He|Hne].
  - assert (Hz : z = 2 ^ 53 \/ z = - 2 ^ 53) by lia.
    destruct Hz as [-> | ->]; vm_compute; reflexivity.
  - unfold to_double, round_to_53_bits.
    assert (Hlog : Z.log2 (Z.abs z) - 52 <= 0).
    { destruct (Z.eq_dec (Z.abs z) 0) as [H0|H0].
      - rewrite H0. cbn. lia.
      - assert (Z.log2 (Z.abs z) < 53) by (apply Z.log2_lt_pow2; lia). lia. }
    apply Z.leb_le in Hlog. rewrite Hlog.
    assert (Hsmall : (2 ^ 1024 <=? Z.abs z) = false).
    { apply Z.leb_gt. apply Z.le_lt_trans with (2 ^ 53); [exact H|].
      apply Z.pow_lt_mono_r; lia. }
    rewrite Hsmall, sgn_mul_abs. reflexivity.
Qed.

(** Beyond 2^53 the rounded magnitude stays at 2^53 or above. *)
Lemma round_to_53_bits_large (n : Z) :
  2 ^ 53 < n -> 2 ^ 53 <= round_to_53_bits n.
Proof.
  intro H. unfold round_to_53_bits.
  assert (Hpos : 0 < n) by lia.
  assert (Hk : 53 <= Z.log2 n) by (apply Z.log2_le_pow2; lia).
  destruct (Z.log2_spec n Hpos) as [Hlow _].
  set (e := Z.log2 n - 52) in *.
  assert (He : 1 <= e) by (unfold e; lia).
  destruct (Z.leb_spec e 0) as [Hle|_]; [lia|].
  assert (Hsplit : 2 ^ Z.log2 n = 2 ^ 52 * 2 ^ e).
  { rewrite <- Z.pow_add_r by lia. f_equal. unfold e. lia. }
  assert (H2e : 2 <= 2 ^ e).
  { change 2 with (2 ^ 1) at 1. apply Z.pow_le_mono_r; lia. }
  assert (Hq : 2 ^ 52 <= n / 2 ^ e).
  { apply Z.div_le_lower_bound; [lia|]. rewrite Z.mul_comm, <- Hsplit.
    exact Hlow. }
  assert (H52 : 0 < 2 ^ 52) by (apply Z.pow_pos_nonneg; lia).
  change (2 ^ 53) with (2 ^ 52 * 2).
  destruct ((2 ^ (e - 1) <? n mod 2 ^ e)
            || (n mod 2 ^ e =? 2 ^ (e - 1)) && Z.odd (n / 2 ^ e)); nia.
Qed.

(** A Number value below 2^53 in magnitude comes from that very integer. *)
Lemma to_double_small (z u : Z) :
  to_double z = JsInt u -> Z.abs u < 2 ^ 53 -> z = u.
Proof.
  intros H Hu. destruct (Z_le_gt_dec (Z.abs z) (2 ^ 53)) as [Hz|Hz].
  - rewrite (to_double_exact z Hz) in H. injection H as H. exact H.
  - exfalso. unfold to_double in H.
    pose proof (round_to_53_bits_large (Z.abs z) ltac:(lia)) as Hm.
    destruct (2 ^ 1024 <=? round_to_53_bits (Z.abs z)); [discriminate|].
    injection H as H. subst u.
    assert (Hsgn : Z.sgn z = 1 \/ Z.sgn z = -1) by lia.
    destruct Hsgn as [Hs|Hs]; rewrite Hs in Hu; lia.
Qed.

Lemma to_double_not_NaN (z : Z) : to_double z <> JsNaN.
Proof.
  unfold to_double.
  destruct (2 ^ 1024 <=? round_to_53_bits (Z.abs z)); discriminate.
Qed.

(** The tests of the source on the Number agree with the tests of the
    model on the integer: [isNaN] and [=== -1]. *)
Lemma js_parseInt_tests (s : jsstring) :
  (js_parseInt s = JsNaN <-> parseInt s = None)
  /\ (js_parseInt s = JsInt (-1) <-> parseInt s = Some (-1)).
Proof.
  unfold js_parseInt. destruct (parseInt s) as [z|].
  - split; split; intro H.
    + exfalso. exact (to_double_not_NaN z H).
    + discriminate.
    + f_equal. apply (to_double_small z (-1) H). cbn. lia.
    + injection H as ->. reflexivity.
  - split; split; intro H; try reflexivity; discriminate.
Qed.

(** ** Response validation and the numbers of the engine *)

(** X2: a response made of at most fifteen decimal digits is accepted with
    its decimal value, leading zeros included, and the engine holds that
    value exactly; the value has no more digits than the response, so a
    response of at most six digits, which is what the instruction asks the
    service for, gives a reading within 0..999999. *)
Theorem digit_response_is_accepted (s : jsstring) :
  all_digits s -> s <> [] -> (List.length s <= 15)%nat ->
  recognize (Some s) = RecognitionSuccess (digits_value s)
  /\ js_parseInt (trim s) = JsInt (digits_value s)
  /\ 0 <= digits_value s < 10 ^ Z.of_nat (List.length s)
  /\ ((List.length s <= 6)%nat -> in_odometer_range (digits_value s)).
Proof.
  intros H Hne Hlen.
  assert (Hb : 0 <= digits_value s < 10 ^ Z.of_nat (List.length s)).
  { pose proof (fold_digits_bounds s H 0 ltac:(lia)) as Hb.
    unfold digits_value. lia. }
  assert (Hp : parseInt (trim s) = Some (digits_value s)).
  { rewrite (trim_digits s H). destruct s as [|c k]; [contradiction|].
    apply parseInt_digits. exact H. }
  split; [|split; [|split; [exact Hb|]]].
  - rewrite recognize_trimmed, Hp. rewrite (trim_digits s H).
    destruct s as [|c k]; [contradiction|].
    destruct (Z.eqb_spec (digits_value (c :: k)) (-1)); [lia | reflexivity].
  - unfold js_parseInt. rewrite Hp. apply to_double_exact.
    assert (10 ^ Z.of_nat (List.length s) <= 10 ^ 15)
      by (apply Z.pow_le_mono_r; lia).
    assert (10 ^ 15 <= 2 ^ 53) by (vm_compute; discriminate).
    lia.
  - intro Hsix. unfold in_odometer_range.
    assert (10 ^ Z.of_nat (List.length s) <= 10 ^ 6)
      by (apply Z.pow_le_mono_r; lia).
    change (10 ^ 6) with 1000000 in *. lia.
Qed.

Lemma digit_response_is_accepted_witness :
  all_digits (str "045213") /\ str "045213" <> []
  /\ (List.length (str "045213") <= 15)%nat
  /\ recognize (Some (str "045213"))
     = RecognitionSuccess (digits_value (str "045213")).
Proof.
  assert (H1 : all_digits (str "045213")) by (repeat constructor).
  assert (H2 : str "045213" <> []) by discriminate.
  assert (H3 : (List.length (str "045213") <= 15)%nat) by (cbn; lia).
  split; [exact H1|]. split; [exact H2|]. split; [exact H3|].
  exact (proj1 (digit_response_is_accepted (str "045213") H1 H2 H3)).
Defined.

(** Beyond sixteen digits the engine rounds, and beyond the range of a
    double it holds Infinity; both numbers pass the tests of the source. *)
Example long_digit_responses :
  js_parseInt (str "9007199254740993") = JsInt 9007199254740992
  /\ js_parseInt (nines 400) = JsInfinity false
  /\ recognize (Some (str "9007199254740993")) <> RecognitionFailure
  /\ recognize (Some (nines 400)) <> RecognitionFailure.
Proof. vm_compute. repeat split; discriminate. Qed.

Section StoredNumber.

Variable API_KEY : option jsstring.
Variable JSON_stringify : list Reading -> jsstring.

Local Abbreviation step := (step API_KEY JSON_stringify).


End StoredNumber.


(** ** The derived view over the numbers of the engine *)

Lemma js_sub_same (z : Z) : js_sub (JsInt z) (JsInt z) = JsInt 0.
Proof. cbn. rewrite Z.sub_diag. reflexivity. Qed.

Lemma js_sub_not_finite (a : JsNumber) :
  (forall z, a <> JsInt z) -> js_sub a a = JsNaN.
Proof.
  destruct a as [|s|z]; intro H; cbn.
  - reflexivity.
  - rewrite Bool.eqb_reflx. reflexivity.
  - exfalso. apply (H z). reflexivity.
Qed.

Lemma js_sub_safe (x y : Z) :
  safe_value x -> safe_value y -> js_sub (JsInt x) (JsInt y) = JsInt (x - y).
Proof.
  unfold safe_value. intros Hx Hy. cbn. apply to_double_exact.
  change (2 ^ 53) with (2 ^ 52 + 2 ^ 52). lia.
Qed.

Section JsProjectionFacts.

Variable Date_getTime : jsstring -> option Z.

Local Abbreviation js_sorts_after := (js_sorts_after Date_getTime).
Local Abbreviation js_sort_insert := (js_sort_insert Date_getTime).
Local Abbreviation js_sortedReadings := (js_sortedReadings Date_getTime).
Local Abbreviation js_initialReading := (js_initialReading Date_getTime).
Local Abbreviation js_displayReadings := (js_displayReadings Date_getTime).
Local Abbreviation js_valid_date := (js_valid_date Date_getTime).
Local Abbreviation js_date_le := (js_date_le Date_getTime).

Lemma js_sort_insert_perm (x : JsReading) (l : list JsReading) :
  Permutation (x :: l) (js_sort_insert x l).
Proof.
  induction l as [|y l IH]; [reflexivity|].
  cbn. destruct (js_sorts_after x y); [|reflexivity].
  rewrite perm_swap. apply perm_skip. exact IH.
Qed.

Lemma js_sortedReadings_perm (l : list JsReading) :
  Permutation l (js_sortedReadings l).
Proof.
  induction l as [|x l IH]; [reflexivity|].
  unfold js_sortedReadings in *. cbn [fold_right].
  rewrite <- js_sort_insert_perm. apply perm_skip. exact IH.
Qed.

Lemma js_sorts_after_false (x y : JsReading) :
  js_valid_date x -> js_valid_date y ->
  js_sorts_after x y = false -> js_date_le x y.
Proof.
  unfold js_valid_date, js_sorts_after, js_date_le.
  destruct (Date_getTime (jr_date x)) as [tx|]; [|contradiction].
  destruct (Date_getTime (jr_date y)) as [ty|]; [|contradiction].
  intros _ _ H. apply Z.ltb_ge in H. lia.
Qed.

Lemma js_sorts_after_true (x y : JsReading) :
  js_sorts_after x y = true -> js_date_le y x.
Proof.
  unfold js_sorts_after, js_date_le.
  destruct (Date_getTime (jr_date x)) as [tx|]; [|discriminate].
  destruct (Date_getTime (jr_date y)) as [ty|]; [|discriminate].
  intro H. apply Z.ltb_lt in H. lia.
Qed.

Lemma js_date_le_trans (x y z : JsReading) :
  js_date_le x y -> js_date_le y z -> js_date_le x z.
Proof.
  unfold js_date_le.
  destruct (Date_getTime (jr_date x)), (Date_getTime (jr_date y)),
    (Date_getTime (jr_date z)); try contradiction; lia.
Qed.

Lemma js_date_le_refl (x : JsReading) : js_valid_date x -> js_date_le x x.
Proof.
  unfold js_valid_date, js_date_le.
  destruct (Date_getTime (jr_date x)); [lia | contradiction].
Qed.

Lemma js_sort_insert_sorted (x : JsReading) (l : list JsReading) :
  js_valid_date x -> Forall js_valid_date l ->
  StronglySorted js_date_le l -> StronglySorted js_date_le (js_sort_insert x l).
Proof.
  intros Hx Hl Hs. induction Hs as [|y l Hs IH Hy].
  - cbn. constructor; constructor.
  - inversion Hl as [|? ? Hvy Hvl]; subst. cbn.
    destruct (js_sorts_after x y) eqn:Hxy.
    + constructor; [apply IH; assumption|].
      apply (Permutation_Forall (js_sort_insert_perm x l)).
      constructor; [|assumption]. apply js_sorts_after_true. exact Hxy.
    + assert (Hle : js_date_le x y)
        by (apply js_sorts_after_false; assumption).
      constructor; [constructor; assumption|].
      constructor; [assumption|].
      eapply Forall_impl; [|exact Hy].
      intros z Hz. eapply js_date_le_trans; eassumption.
Qed.

Lemma js_sortedReadings_sorted (l : list JsReading) :
  Forall js_valid_date l -> StronglySorted js_date_le (js_sortedReadings l).
Proof.
  induction 1 as [|x l Hx Hl IH]; [constructor|].
  unfold js_sortedReadings in *. cbn [fold_right].
  apply js_sort_insert_sorted; [assumption| |assumption].
  apply (Permutation_Forall (js_sortedReadings_perm l)). assumption.
Qed.

Lemma js_displayValue_of (rs : list JsReading) (zero : bool)
    (d : JsDisplayReading) :
  In d (js_displayReadings rs zero) ->
  jd_displayValue d
  = if zero then js_sub (jd_value d) (js_initialReading rs) else jd_value d.
Proof.
  unfold js_displayReadings. intro H. apply in_map_iff in H as (r & <- & _).
  reflexivity.
Qed.

(** C6 (amended): in absolute mode every row shows its value; in zero-based
    mode it shows its value minus [initialReading], as the engine subtracts.
    [initialReading] is 0 for the empty collection and otherwise the value
    of the first sorted reading, a reading of the collection that no reading
    precedes in time (dates that parse).  The first zero-based row of a
    non-empty collection shows 0 when that value is finite, and NaN when it
    is not; and where a row's value and [initialReading] are integers of at
    most 2^52 in magnitude, the row shows their exact difference. *)
Theorem zero_based_rows (rs : list JsReading) :
  (forall d, In d (js_displayReadings rs false) ->
     jd_displayValue d = jd_value d)
  /\ (forall d, In d (js_displayReadings rs true) ->
        jd_displayValue d = js_sub (jd_value d) (js_initialReading rs))
  /\ (rs = [] -> js_initialReading rs = JsInt 0)
  /\ (rs <> [] ->
      exists first rest,
        js_sortedReadings rs = first :: rest
        /\ In first rs
        /\ js_initialReading rs = jr_value first
        /\ (Forall js_valid_date rs ->
            forall r, In r rs -> js_date_le first r)
        /\ exists d ds,
             js_displayReadings rs true = d :: ds
             /\ js_reading_of d = first
             /\ (forall z, jr_value first = JsInt z ->
                 jd_displayValue d = JsInt 0)
             /\ ((forall z, jr_value first <> JsInt z) ->
                 jd_displayValue d = JsNaN))
  /\ (forall d x y,
        In d (js_displayReadings rs true) ->
        jd_value d = JsInt x -> js_initialReading rs = JsInt y ->
        safe_value x -> safe_value y ->
        jd_displayValue d = JsInt (x - y)).
Proof.
  split; [intros d Hd; apply (js_displayValue_of rs false d Hd)|].
  split; [intros d Hd; apply (js_displayValue_of rs true d Hd)|].
  split; [intros ->; reflexivity|].
  split.
  - intro Hne.
    destruct (js_sortedReadings rs) as [|first rest] eqn:Hs.
    + exfalso. apply Hne. apply Permutation_nil.
      rewrite <- Hs. symmetry. apply js_sortedReadings_perm.
    + exists first, rest. split; [reflexivity|].
      assert (Hperm : Permutation rs (first :: rest))
        by (rewrite <- Hs; apply js_sortedReadings_perm).
      assert (Hin : In first rs)
        by (apply (Permutation_in _ (Permutation_sym Hperm)); left;
            reflexivity).
      assert (Hinit : js_initialReading rs = jr_value first)
        by (unfold js_initialReading; rewrite Hs; reflexivity).
      split; [exact Hin|]. split; [exact Hinit|]. split.
      * intros Hv r Hr.
        pose proof (js_sortedReadings_sorted rs Hv) as Hsorted.
        rewrite Hs in Hsorted.
        inversion Hsorted as [|? ? _ Hall]; subst.
        apply (Permutation_in _ Hperm) in Hr as [<-|Hr].
        -- apply js_date_le_refl.
           apply (proj1 (Forall_forall _ _) Hv). exact Hin.
        -- apply (proj1 (Forall_forall _ _) Hall). exact Hr.
      * destruct first as [i v d] eqn:Hf.
        exists (mkJsDisplayReading i v d (js_sub v (js_initialReading rs))).
        exists (map (fun r =>
                       mkJsDisplayReading (jr_id r) (jr_value r) (jr_date r)
                         (js_sub (jr_value r) (js_initialReading rs))) rest).
        split; [unfold js_displayReadings; rewrite Hs; reflexivity|].
        split; [reflexivity|]. cbn [jd_displayValue jr_value] in *.
        rewrite Hinit. split.
        -- intros z ->. apply js_sub_same.
        -- apply js_sub_not_finite.
  - intros d x y Hd Hx Hy Sx Sy.
    rewrite (js_displayValue_of rs true d Hd), Hx, Hy.
    apply js_sub_safe; assumption.
Qed.

Lemma js_sorts_after_as_stored (x y : Reading) :
  js_sorts_after (as_stored x) (as_stored y) = sorts_after Date_getTime x y.
Proof.
  unfold js_sorts_after, sorts_after, compareFn. cbn.
  destruct (Date_getTime (date x)), (Date_getTime (date y)); reflexivity.
Qed.

Lemma js_sort_insert_as_stored (x : Reading) (l : list Reading) :
  js_sort_insert (as_stored x) (map as_stored l)
  = map as_stored (sort_insert Date_getTime x l).
Proof.
  induction l as [|y l IH]; [reflexivity|].
  cbn. rewrite js_sorts_after_as_stored.
  destruct (sorts_after Date_getTime x y); cbn; [rewrite IH|]; reflexivity.
Qed.

Lemma js_sortedReadings_as_stored (rs : list Reading) :
  js_sortedReadings (map as_stored rs)
  = map as_stored (sortedReadings Date_getTime rs).
Proof.
  induction rs as [|x rs IH]; [reflexivity|].
  unfold js_sortedReadings, sortedReadings, Array_sort in *.
  cbn [map fold_right]. rewrite IH. apply js_sort_insert_as_stored.
Qed.

(** Over integers of at most 2^52 in magnitude the view of the integer
    model is the view the engine computes. *)
Lemma integer_view_is_exact (rs : list Reading) (zero : bool) :
  Forall (fun r => safe_value (value r)) rs ->
  js_displayReadings (map as_stored rs) zero
  = map as_shown (displayReadings Date_getTime rs zero).
Proof.
  intro Hsafe.
  assert (Hinit : js_initialReading (map as_stored rs)
                  = JsInt (initialReading Date_getTime rs)).
  { unfold js_initialReading, initialReading.
    rewrite js_sortedReadings_as_stored.
    destruct (sortedReadings Date_getTime rs); reflexivity. }
  assert (Hin : forall r, In r (sortedReadings Date_getTime rs) -> In r rs).
  { intros r Hr.
    apply (Permutation_in _
             (Permutation_sym (Array_sort_perm Date_getTime rs))). exact Hr. }
  assert (Hs0 : safe_value (initialReading Date_getTime rs)).
  { unfold initialReading.
    destruct (sortedReadings Date_getTime rs) as [|first rest] eqn:Es.
    - unfold safe_value. cbn. lia.
    - apply (proj1 (Forall_forall _ _) Hsafe). apply Hin. left; reflexivity. }
  unfold js_displayReadings, displayReadings.
  rewrite js_sortedReadings_as_stored, !map_map.
  apply map_ext_in. intros r Hr. unfold as_shown. cbn -[js_sub].
  destruct zero; [|reflexivity].
  rewrite Hinit, js_sub_safe; [reflexivity| |exact Hs0].
  apply (proj1 (Forall_forall _ _) Hsafe). apply Hin. exact Hr.
Qed.

End JsProjectionFacts.

(** C6, as the claim states it: the response of 400 nines is accepted and
    the engine holds Infinity for it; the first zero-based row of the
    collection with that one reading shows NaN, not 0. *)
Lemma infinite_first_reading_shows_NaN :
  recognize (Some (nines 400)) <> RecognitionFailure
  /\ jr_value infinite_reading = JsInfinity false
  /\ exists d ds,
       js_displayReadings sample_getTime [infinite_reading] true = d :: ds
       /\ jd_displayValue d = JsNaN
       /\ jd_displayValue d <> JsInt 0.
Proof.
  split; [vm_compute; discriminate|]. split; [vm_compute; reflexivity|].
  eexists. eexists. split; [vm_compute; reflexivity|].
  split; [reflexivity | discriminate].
Qed.

Lemma zero_based_rows_witness :
  sample_numbers <> []
  /\ exists d ds,
       js_displayReadings sample_getTime sample_numbers true = d :: ds
       /\ jd_displayValue d = JsInt 0.
Proof.
  assert (Hne : sample_numbers <> []) by discriminate.
  split; [exact Hne|].
  destruct (zero_based_rows sample_getTime sample_numbers)
    as (_ & _ & _ & H & _).
  destruct (H Hne)
    as (first & rest & Hs & _ & _ & _ & d & ds & Hd & _ & Hz & _).
  exists d, ds. split; [exact Hd|].
  assert (Hfirst : first = as_stored (mkReading (str "a") 45213 day1)).
  { assert (E : js_sortedReadings sample_getTime sample_numbers
                = [as_stored (mkReading (str "a") 45213 day1);
                   as_stored (mkReading (str "b") 45300 day2)])
      by (vm_compute; reflexivity).
    rewrite E in Hs. injection Hs as <- _. reflexivity. }
  apply (Hz 45213). rewrite Hfirst. reflexivity.
Defined.

(** ** Mounting on any stored text *)

Section StartupFacts.

Variable JSON_parse_any : jsstring -> Parsed.
Variable JSON_stringify : list Reading -> jsstring.

Local Abbreviation startup := (startup JSON_parse_any JSON_stringify).
Local Abbreviation parse_readings := (parse_readings JSON_parse_any).

(** Where [JSON.parse] throws or returns an array of readings, mounting is
    [mount] on the reader restricted to these two outcomes. *)
Lemma startup_mounts (stored : option jsstring) :
  (forall text, stored = Some text ->
                JSON_parse_any text <> ParsedNotIterable) ->
  startup stored = Mounted (mount parse_readings JSON_stringify stored).
Proof.
  intro H. unfold startup, mount, load_effect, parse_readings.
  cbn [initial_host storage].
  destruct stored as [[|c s]|]; cbn [truthy]; try reflexivity.
  specialize (H (c :: s) eq_refl).
  destruct (JSON_parse_any (c :: s)); [reflexivity | reflexivity |].
  contradiction.
Qed.


End StartupFacts.


(** Mounting on the texts "[]" and "{bad": the empty collection, the second
    with the failure logged. *)
Example startup_examples :
  (exists w, startup sample_parse_any sample_stringify (Some (str "[]"))
             = Mounted w
             /\ readings (state w) = [] /\ console (host w) = [])
  /\ (exists w, startup sample_parse_any sample_stringify (Some (str "{bad"))
                = Mounted w
                /\ readings (state w) = []
                /\ console (host w) = [FailedToParseReadings]).
Proof.
  split; eexists; (split; [vm_compute; reflexivity|]); split; reflexivity.
Qed.
